(** * TestingTiming: a periodic sine-wave transmitter over a UART

    Shallow embedding of [RT_Kernel_Test_Scripts/TestingTiming.cpp].

    Conventions of the embedding:
    - [long], [long long] and [time_t] are 64-bit two's-complement integers
      (LP64 Linux); a value is a [Z] and every arithmetic result goes
      through [wrap64];
    - a [struct timespec] is a record of two such integers;
    - the operating system is an explicit environment ([Main.env]): the
      results of [sched_setscheduler] and [open], the attributes returned
      by [tcgetattr], and the successive readings of [CLOCK_MONOTONIC];
    - every observable action of the program is an [event] appended to a
      trace;
    - [main] is a step function over the control points of the source, so
      that "the loop never ends" and "the code after it is dead" are
      statements about reachable configurations;
    - a finite [double] is the rational number it denotes, and every
      operation on doubles rounds; the distance between what the program
      computes and the mathematical wave is bounded from the rounding
      errors. *)

From Stdlib Require Import ZArith QArith Qabs Reals Machin Qreals List String.
From Stdlib Require Import Ascii Lia Lra Lqa Psatz Bool.
From Equations Require Import Equations.
Import ListNotations.

Local Open Scope Z_scope.

(** ** 64-bit signed integers *)

Module Int64.

Definition min_signed : Z := - 2 ^ 63.
Definition max_signed : Z := 2 ^ 63 - 1.

(** Reduction of a mathematical integer to its 64-bit signed
    representative. *)
Definition wrap64 (z : Z) : Z := (z + 2 ^ 63) mod 2 ^ 64 - 2 ^ 63.

Definition in_range (z : Z) : Prop := min_signed <= z <= max_signed.

End Int64.

(** ** [struct timespec] and [add_ms] *)

Module Timespec.
Import Int64.

Record timespec : Type := mkts { tv_sec : Z; tv_nsec : Z }.

Definition NSEC_PER_SEC : Z := 1000000000.

(** The [while] loop of [add_ms]: as long as [tv_nsec >= 1000000000LL],
    take one second out of [tv_nsec] and increment [tv_sec]. *)
Equations? carry_loop (t : timespec) : timespec
  by wf (Z.to_nat (tv_nsec t / 1000000000)) lt :=
  carry_loop t with Z_ge_dec (tv_nsec t) 1000000000 => {
    | left _ := carry_loop {| tv_sec := wrap64 (tv_sec t + 1);
                              tv_nsec := wrap64 (tv_nsec t - 1000000000) |};
    | right _ := t }.
Proof.
  cbn.
  assert (L : wrap64 (tv_nsec t - 1000000000) <= tv_nsec t - 1000000000).
  { unfold wrap64.
    pose proof (Z.mod_le (tv_nsec t - 1000000000 + 2 ^ 63) (2 ^ 64)
                  ltac:(lia) ltac:(lia)). lia. }
  assert (D : wrap64 (tv_nsec t - 1000000000) / 1000000000
              <= (tv_nsec t - 1000000000) / 1000000000)
    by (apply Z.div_le_mono; lia).
  assert (E : (tv_nsec t - 1000000000) / 1000000000
              = tv_nsec t / 1000000000 - 1).
  { replace (tv_nsec t - 1000000000) with (tv_nsec t + (-1) * 1000000000)
      by lia.
    rewrite Z.div_add by lia. lia. }
  assert (1 <= tv_nsec t / 1000000000)
    by (apply Z.div_le_lower_bound; lia).
  lia.
Qed.

(** [static inline void add_ms(struct timespec &t, long ms)]: the
    reference parameter is modelled by returning the updated record. *)
Definition add_ms (t : timespec) (ms : Z) : timespec :=
  carry_loop {| tv_sec := tv_sec t;
                tv_nsec := wrap64 (tv_nsec t + wrap64 (ms * 1000000)) |}.

(** The instant a timespec denotes, in nanoseconds. *)
Definition to_ns (t : timespec) : Z := tv_sec t * NSEC_PER_SEC + tv_nsec t.

Definition normalised (t : timespec) : Prop := 0 <= tv_nsec t < NSEC_PER_SEC.

End Timespec.

(** ** The terminal attributes and the libc calls that edit them

    The program only calls [cfsetispeed], [cfsetospeed] and [cfmakeraw]
    and then ORs two flags into [c_cflag].  The three calls belong to the
    C library; they are written here as termios(3) and the Linux generic
    ABI ([asm-generic/termbits.h]) define them, flag values included.
    [tcflag_t] is an unsigned 32-bit integer, so [x &= ~m] keeps exactly
    the bits of [x] that are not in [m]. *)

Module Termios.

Record termios : Type := mktermios {
  c_iflag : Z;
  c_oflag : Z;
  c_cflag : Z;
  c_lflag : Z;
  c_cc : Z -> Z;      (* the control-character array, by index *)
  c_ispeed : Z;
  c_ospeed : Z
}.

(* c_iflag *)
Definition IGNBRK : Z := 0x0001.
Definition BRKINT : Z := 0x0002.
Definition PARMRK : Z := 0x0008.
Definition ISTRIP : Z := 0x0020.
Definition INLCR : Z := 0x0040.
Definition IGNCR : Z := 0x0080.
Definition ICRNL : Z := 0x0100.
Definition IXON : Z := 0x0400.
Definition IBAUD0 : Z := 0x80000000.
(* c_oflag *)
Definition OPOST : Z := 0x0001.
(* c_cflag *)
Definition CBAUD : Z := 0x100f.
Definition CBAUDEX : Z := 0x1000.
Definition CSIZE : Z := 0x0030.
Definition CS8 : Z := 0x0030.
Definition CREAD : Z := 0x0080.
Definition PARENB : Z := 0x0100.
Definition CLOCAL : Z := 0x0800.
Definition B115200 : Z := 0x1002.
(* c_lflag *)
Definition ISIG : Z := 0x0001.
Definition ICANON : Z := 0x0002.
Definition ECHO : Z := 0x0008.
Definition ECHONL : Z := 0x0040.
Definition IEXTEN : Z := 0x8000.
(* c_cc indices *)
Definition VTIME : Z := 5.
Definition VMIN : Z := 6.
(* tcsetattr actions *)
Definition TCSANOW : Z := 0.

(** [x &= ~m] on a [tcflag_t]. *)
Definition clear_bits (x m : Z) : Z := Z.land x (Z.lnot m).
(** [x |= m]. *)
Definition set_bits (x m : Z) : Z := Z.lor x m.

Definition set_cc (cc : Z -> Z) (i v : Z) : Z -> Z :=
  fun j => if j =? i then v else cc j.

Definition B57600 : Z := 0x1001.
Definition MAX_BAUD : Z := 0x100f.

(** The speeds the two setters accept; any other value makes them fail
    with [EINVAL] and leave the structure alone. *)
Definition speed_ok (speed : Z) : bool :=
  (Z.land speed (Z.lnot CBAUD) =? 0)
  || ((B57600 <=? speed) && (speed <=? MAX_BAUD)).

(** [cfsetispeed]: a zero speed means "same as output" and is recorded
    in [IBAUD0]; any other speed is stored in the baud bits. *)
Definition cfsetispeed (t : termios) (speed : Z) : termios :=
  if negb (speed_ok speed) then t
  else if speed =? 0 then
    mktermios (set_bits (c_iflag t) IBAUD0) (c_oflag t) (c_cflag t)
              (c_lflag t) (c_cc t) speed (c_ospeed t)
  else
    mktermios (clear_bits (c_iflag t) IBAUD0) (c_oflag t)
              (set_bits (clear_bits (c_cflag t) (Z.lor CBAUD CBAUDEX)) speed)
              (c_lflag t) (c_cc t) speed (c_ospeed t).

Definition cfsetospeed (t : termios) (speed : Z) : termios :=
  if negb (speed_ok speed) then t
  else
  mktermios (c_iflag t) (c_oflag t)
            (set_bits (clear_bits (c_cflag t) (Z.lor CBAUD CBAUDEX)) speed)
            (c_lflag t) (c_cc t) (c_ispeed t) speed.

Definition cfgetospeed (t : termios) : Z :=
  Z.land (c_cflag t) (Z.lor CBAUD CBAUDEX).

Definition cfgetispeed (t : termios) : Z :=
  if Z.land (c_iflag t) IBAUD0 =? 0
  then Z.land (c_cflag t) (Z.lor CBAUD CBAUDEX)
  else 0.

Definition RAW_IFLAG_OFF : Z :=
  Z.lor IGNBRK (Z.lor BRKINT (Z.lor PARMRK (Z.lor ISTRIP
    (Z.lor INLCR (Z.lor IGNCR (Z.lor ICRNL IXON)))))).
Definition RAW_LFLAG_OFF : Z :=
  Z.lor ECHO (Z.lor ECHONL (Z.lor ICANON (Z.lor ISIG IEXTEN))).

Definition cfmakeraw (t : termios) : termios :=
  mktermios (clear_bits (c_iflag t) RAW_IFLAG_OFF)
            (clear_bits (c_oflag t) OPOST)
            (set_bits (clear_bits (c_cflag t) (Z.lor CSIZE PARENB)) CS8)
            (clear_bits (c_lflag t) RAW_LFLAG_OFF)
            (set_cc (set_cc (c_cc t) VMIN 1) VTIME 0)
            (c_ispeed t) (c_ospeed t).

(** [options.c_cflag |= CREAD | CLOCAL;] *)
Definition set_cread_clocal (t : termios) : termios :=
  mktermios (c_iflag t) (c_oflag t)
            (set_bits (c_cflag t) (Z.lor CREAD CLOCAL))
            (c_lflag t) (c_cc t) (c_ispeed t) (c_ospeed t).

(** Lines 45-48 of [main], applied to what [tcgetattr] left in
    [options]. *)
Definition configure (options : termios) : termios :=
  set_cread_clocal
    (cfmakeraw (cfsetospeed (cfsetispeed options B115200) B115200)).

(** What termios(3) calls raw mode. *)
Definition raw_mode (t : termios) : Prop :=
  Z.land (c_iflag t) RAW_IFLAG_OFF = 0 /\
  Z.land (c_oflag t) OPOST = 0 /\
  Z.land (c_lflag t) RAW_LFLAG_OFF = 0 /\
  Z.land (c_cflag t) (Z.lor CSIZE PARENB) = CS8 /\
  c_cc t VMIN = 1 /\ c_cc t VTIME = 0.

Definition flag_set (x m : Z) : Prop := Z.land x m = m.

End Termios.

(** ** Arithmetic on [double]

    The sample is computed in [double].  The computation is written over
    an interface of the operations it uses and read in [Rounded]
    arithmetic: a finite [double] is the rational it denotes, every
    conversion, literal and operation rounds its exact result with [fl],
    and [std::sin] is whatever the C library computes. *)

Module Double.
Import Int64 Timespec.

Record ops : Type := mkops {
  F : Type;
  f_of_Z : Z -> F;          (* conversion of an integer operand *)
  f_lit : Q -> F;           (* a decimal literal of the source *)
  f_pi : F;                 (* the macro M_PI *)
  f_add : F -> F -> F;
  f_mul : F -> F -> F;
  f_div : F -> F -> F;
  f_sin : F -> F            (* std::sin *)
}.

(** The decimal expansion that <math.h> gives for [M_PI]. *)
Definition M_PI_literal : Q := 314159265358979323846 # 100000000000000000000.

Definition Rounded (fl libm_sin : Q -> Q) : ops :=
  mkops Q
        (fun z => fl (inject_Z z))
        fl
        (fl M_PI_literal)
        (fun a b => fl (a + b)%Q)
        (fun a b => fl (a * b)%Q)
        (fun a b => fl (a / b)%Q)
        libm_sin.

Section Sample.
Variable o : ops.

(** Sine parameters, lines 54-57. *)
Definition freq : F o := f_lit o (33 # 100).
Definition two_pi : F o := f_mul o (f_of_Z o 2) (f_pi o).
Definition amplitude : F o := f_lit o 4.
Definition offset : F o := f_lit o 4.

(** Lines 73-75: the time elapsed since [start], in seconds. *)
Definition t_sec (start now : timespec) : F o :=
  f_add o
    (f_of_Z o (wrap64 (tv_sec now - tv_sec start)))
    (f_div o (f_of_Z o (wrap64 (tv_nsec now - tv_nsec start)))
             (f_lit o 1000000000)).

(** Line 78. *)
Definition sine (t : F o) : F o :=
  f_add o (f_mul o amplitude (f_sin o (f_mul o (f_mul o two_pi freq) t)))
          offset.

Definition sample (start now : timespec) : F o :=
  sine (t_sec start now).
End Sample.

End Double.

(** ** Formatting: [snprintf(buffer, sizeof(buffer), "%.4f\r\n", y)]

    For a finite [double], the conversion [%.4f] prints the decimal
    number with four fractional digits that is nearest to the exact value
    of the argument, ties going to the even last digit. *)

Module Format.
Local Open Scope string_scope.

Definition NUL : ascii := ascii_of_nat 0.
Definition CR : ascii := ascii_of_nat 13.
Definition LF : ascii := ascii_of_nat 10.
Definition CRLF : string := String CR (String LF EmptyString).

(** Nearest integer, ties to even. *)
Definition round_half_even (q : Q) : Z :=
  let n := Qnum q in
  let d := Zpos (Qden q) in
  let f := (n / d)%Z in
  match (2 * (n mod d) ?= d)%Z with
  | Lt => f
  | Gt => (f + 1)%Z
  | Eq => if Z.even f then f else (f + 1)%Z
  end.

(** The character ['0' + d]. *)
Definition digit (d : Z) : ascii := ascii_of_nat (48 + Z.to_nat d).

(** The decimal digits of a natural number, most significant first,
    ["0"] for zero. *)
Fixpoint uint_text (d : Decimal.uint) : string :=
  match d with
  | Decimal.Nil => EmptyString
  | Decimal.D0 d => String (digit 0) (uint_text d)
  | Decimal.D1 d => String (digit 1) (uint_text d)
  | Decimal.D2 d => String (digit 2) (uint_text d)
  | Decimal.D3 d => String (digit 3) (uint_text d)
  | Decimal.D4 d => String (digit 4) (uint_text d)
  | Decimal.D5 d => String (digit 5) (uint_text d)
  | Decimal.D6 d => String (digit 6) (uint_text d)
  | Decimal.D7 d => String (digit 7) (uint_text d)
  | Decimal.D8 d => String (digit 8) (uint_text d)
  | Decimal.D9 d => String (digit 9) (uint_text d)
  end.

Definition int_text (z : Z) : string := uint_text (N.to_uint (Z.to_N z)).

(** Four digits, zero padded. *)
Definition frac4 (k : Z) : string :=
  String (digit (k / 1000 mod 10))
    (String (digit (k / 100 mod 10))
      (String (digit (k / 10 mod 10))
        (String (digit (k mod 10)) EmptyString))).

(** The number of ten-thousandths printed for [y]. *)
Definition ten_thousandths (y : Q) : Z := round_half_even (y * 10000).

(** The text [%.4f] produces for [y]. *)
Definition fixed4 (y : Q) : string :=
  let k := Z.abs (ten_thousandths y) in
  (if Qlt_le_dec y 0 then "-" else "")
    ++ int_text (k / 10000) ++ "." ++ frac4 (k mod 10000).

(** The whole output of the format ["%.4f\r\n"]. *)
Definition format_line (y : Q) : string := fixed4 y ++ CRLF.

(** [snprintf(buf, size, ...)] stores at most [size - 1] characters of
    the formatted text and then a terminating NUL; the bytes of the
    array after the terminator are not part of the model. *)
Definition snprintf (size : nat) (text : string) : string :=
  substring 0 (size - 1) text ++ String NUL EmptyString.

(** [strlen]: the number of characters before the first NUL. *)
Fixpoint strlen (buf : string) : nat :=
  match buf with
  | EmptyString => 0
  | String c rest => if Ascii.eqb c NUL then 0 else S (strlen rest)
  end.

Definition BUFFER_SIZE : nat := 32.

(** The content of [buffer] after line 82. *)
Definition buffer_of (y : Q) : string := snprintf BUFFER_SIZE (format_line y).

(** The bytes handed to [write] on line 84: the first [strlen(buffer)]
    bytes of [buffer]. *)
Definition transmitted (y : Q) : string :=
  substring 0 (strlen (buffer_of y)) (buffer_of y).

Definition is_digit (c : ascii) : bool :=
  (48 <=? nat_of_ascii c)%nat && (nat_of_ascii c <=? 57)%nat.

(** The value of a digit character. *)
Definition digit_value (c : ascii) : Z := (Z.of_nat (nat_of_ascii c) - 48)%Z.

(** A reader for the wire format, used to say what a line denotes: one or
    more digits, a point, exactly four digits, CR, LF and nothing else.
    It returns the number read, in ten-thousandths. *)
Fixpoint read_fraction (n : nat) (acc : Z) (s : string) : option Z :=
  match n with
  | O => if String.eqb s CRLF then Some acc else None
  | S n' =>
      match s with
      | String c rest =>
          if is_digit c
          then read_fraction n' (10 * acc + digit_value c)%Z rest
          else None
      | EmptyString => None
      end
  end.

Fixpoint read_integer (seen : bool) (acc : Z) (s : string) : option Z :=
  match s with
  | String c rest =>
      if is_digit c then read_integer true (10 * acc + digit_value c)%Z rest
      else if Ascii.eqb c "." && seen then read_fraction 4 acc rest
      else None
  | EmptyString => None
  end.

Definition read_line (s : string) : option Z := read_integer false 0%Z s.

(** A line spelled out digit by digit: one integer digit, the point, four
    fractional digits, CR, LF. *)
Definition spelled (a b1 b2 b3 b4 : Z) : string :=
  String (digit a)
    (String "."
      (String (digit b1)
        (String (digit b2)
          (String (digit b3)
            (String (digit b4) CRLF))))).

End Format.

(** ** The program: [enable_realtime], [sleep_until] and [main] *)

Module Main.
Import Int64 Timespec Termios Format.

(** What the operating system answers. *)
Record env : Type := mkenv {
  sched_setscheduler_result : Z;
  open_result : Z;                 (* a descriptor, or -1 *)
  tcgetattr_result : termios;      (* [options] after line 44 *)
  clock : nat -> timespec          (* the k-th call of clock_gettime *)
}.

(** What the program does to the outside. *)
Inductive event : Type :=
| SchedSetscheduler (pid policy priority : Z)
| Perror (msg : string)
| Open (path : string) (flags : Z)
| Cerr (text : string)
| Cout (text : string)
| Tcgetattr (fd : Z)
| Tcsetattr (fd action : Z) (options : termios)
| ClockGettime
| Write (fd : Z) (bytes : string)
| Tcdrain (fd : Z)
| ClockNanosleep (deadline : timespec)
| Close (fd : Z).

Definition SCHED_FIFO : Z := 1.
Definition O_RDWR : Z := 0x2.
Definition O_NOCTTY : Z := 0x100.
Definition O_NDELAY : Z := 0x800.

Definition nl : string := String LF EmptyString.

Definition enable_realtime (e : env) : list event :=
  SchedSetscheduler 0 SCHED_FIFO 70
    :: (if sched_setscheduler_result e <? 0
        then [Perror "sched_setscheduler"]
        else []).

Definition sleep_until (ts : timespec) : list event := [ClockNanosleep ts].

Definition port : string := "/dev/ttyAMA0".

Definition banner : string :=
  ("Outputting sine wave: freq=0.33 Hz, range 0–8, step=50ms" ++ nl ++ nl)
    %string.

(** The local variables that live across loop iterations, and the
    number of clock readings consumed so far. *)
Record locals : Type := mklocals {
  serial_fd : Z;
  next : timespec;
  start : timespec;
  reads : nat
}.

(** Where control is in [main]. *)
Inductive control : Type :=
| Entry                         (* before line 32 *)
| AtLoop (l : locals)           (* at the test of the while, line 68 *)
| AfterLoop (l : locals)        (* line 94 *)
| Returned (status : Z).

Record config : Type := mkconfig { ctl : control; trace : list event }.

Section Program.
(** Rounding to [double] and the C library's sine. *)
Variable fl : Q -> Q.
Variable libm_sin : Q -> Q.

Definition sample_of (start now : timespec) : Q :=
  Double.sample (Double.Rounded fl libm_sin) start now.

(** Lines 32-66. *)
Definition prologue (e : env) : config :=
  let t0 := enable_realtime e
            ++ [Open port (Z.lor O_RDWR (Z.lor O_NOCTTY O_NDELAY))] in
  let fd := open_result e in
  if fd =? -1 then
    mkconfig (Returned 1) (t0 ++ [Cerr ("Failed to open UART" ++ nl)])
  else
    let options := configure (tcgetattr_result e) in
    let next0 := add_ms (clock e 0) 50 in
    let start0 := clock e 1 in
    mkconfig (AtLoop (mklocals fd next0 start0 2))
             (t0 ++ [Tcgetattr fd; Tcsetattr fd TCSANOW options;
                     Cout banner; ClockGettime; ClockGettime]).

(** Lines 70-91: one iteration. *)
Definition loop_body (e : env) (l : locals) : locals * list event :=
  let now := clock e (reads l) in
  let y := sample_of (start l) now in
  let buffer := buffer_of y in
  (mklocals (serial_fd l) (add_ms (next l) 50) (start l) (S (reads l)),
   [ClockGettime;
    Write (serial_fd l) (substring 0 (strlen buffer) buffer);
    Tcdrain (serial_fd l);
    Cout ("Sent: " ++ substring 0 (strlen buffer) buffer)]
   ++ sleep_until (next l)).

(** The condition of [while (true)]. *)
Definition loop_condition : bool := true.

(** One step of [main]; [None] once it has returned. *)
Definition step (e : env) (c : config) : option config :=
  match ctl c with
  | Entry =>
      let c' := prologue e in
      Some (mkconfig (ctl c') (trace c ++ trace c'))
  | AtLoop l =>
      if loop_condition then
        let '(l', evs) := loop_body e l in
        Some (mkconfig (AtLoop l') (trace c ++ evs))
      else Some (mkconfig (AfterLoop l) (trace c))
  | AfterLoop l =>
      Some (mkconfig (Returned 0) (trace c ++ [Close (serial_fd l)]))
  | Returned _ => None
  end.

Definition initial : config := mkconfig Entry [].

(** [main] run for [n] steps. *)
Fixpoint main (e : env) (n : nat) : option config :=
  match n with
  | O => Some initial
  | S k => match main e k with
           | Some c => step e c
           | None => None
           end
  end.

Definition reachable (e : env) (c : config) : Prop :=
  exists n, main e n = Some c.

(** The payloads of the [write] calls of a trace, in order. *)
Fixpoint writes (t : list event) : list string :=
  match t with
  | [] => []
  | Write _ bytes :: rest => bytes :: writes rest
  | _ :: rest => writes rest
  end.

(** The deadlines passed to [clock_nanosleep], in order. *)
Fixpoint deadlines (t : list event) : list timespec :=
  match t with
  | [] => []
  | ClockNanosleep d :: rest => d :: deadlines rest
  | _ :: rest => deadlines rest
  end.

(** The sample of tick [n]: the clock has been read twice before the
    loop, so tick [n] uses reading [n + 2], and [start] is reading 1. *)
Definition sample_at (e : env) (n : nat) : Q :=
  sample_of (clock e 1) (clock e (n + 2)).

(** Closed forms, shown below to describe what [main] does: the value
    of [next] after [n] iterations, the events of iteration [i], and
    the locals and the trace after [n] iterations. *)
Definition deadline (e : env) (n : nat) : timespec :=
  Nat.iter (S n) (fun t => add_ms t 50) (clock e 0).

Definition tick_events (e : env) (i : nat) : list event :=
  [ClockGettime;
   Write (open_result e) (transmitted (sample_at e i));
   Tcdrain (open_result e);
   Cout ("Sent: " ++ transmitted (sample_at e i));
   ClockNanosleep (deadline e i)].

Definition locals_after (e : env) (n : nat) : locals :=
  mklocals (open_result e) (deadline e n) (clock e 1) (n + 2).

Definition trace_after (e : env) (n : nat) : list event :=
  trace (prologue e) ++ flat_map (tick_events e) (seq 0 n).

End Program.

(** The wave as a function over the real numbers, for an elapsed time of
    [ns] nanoseconds: 4 sin (2 pi 0.33 t) + 4. *)
Definition sample_after (ns : Z) : R :=
  (4 * sin (2 * PI * (33 / 100) * (IZR ns / 1000000000)) + 4)%R.

(** The time elapsed between the reading of [start] and the reading of
    tick [n], in nanoseconds. *)
Definition elapsed_ns (e : env) (n : nat) : Z :=
  to_ns (clock e (n + 2)) - to_ns (clock e 1).

(** The value the specification gives for tick [n]:
    amplitude * sin (2 pi f (n S)) + offset, with amplitude 4, offset 4,
    f = 0.33 Hz and S = 50 ms. *)
Definition spec_sample (n : nat) : R :=
  (4 * sin (2 * PI * (33 / 100) * (INR n * (50 / 1000))) + 4)%R.

(** A reading of [CLOCK_MONOTONIC]: non-negative seconds that fit
    [time_t], nanoseconds below one second. *)
Definition valid_reading (t : timespec) : Prop :=
  0 <= tv_sec t <= max_signed /\ normalised t.



(** *** Sample inputs *)

Definition demo_termios : termios :=
  mktermios 0 0 0 0 (fun _ => 0) 0 0.

(** A clock that is read exactly on schedule: the two readings before the
    loop are the origin, and the reading of tick [n] is [n] times 50 ms. *)
Definition on_time_clock (k : nat) : timespec :=
  if (k <? 2)%nat then mkts 0 0
  else
    let ns := (Z.of_nat k - 2) * 50000000 in
    mkts (ns / 1000000000) (ns mod 1000000000).

(** A clock on which the first wake-up comes half a second late: the
    three readings before and at tick 0 are the origin, and reading
    [k >= 3] is 500 ms + (k - 2) * 50 ms. *)
Definition late_clock (k : nat) : timespec :=
  if (k <? 3)%nat then mkts 0 0
  else
    let ns := 500000000 + (Z.of_nat k - 2) * 50000000 in
    mkts (ns / 1000000000) (ns mod 1000000000).

(** In [demo_env] every call succeeds and the clock is on time; in
    [demo_env_no_uart] the device cannot be opened; in [demo_env_no_rt]
    the priority request is refused; in [late_env] the clock is
    [late_clock]. *)
Definition demo_env : env := mkenv 0 3 demo_termios on_time_clock.
Definition demo_env_no_uart : env := mkenv 0 (-1) demo_termios on_time_clock.
Definition demo_env_no_rt : env := mkenv (-1) 3 demo_termios on_time_clock.
Definition late_env : env := mkenv 0 3 demo_termios late_clock.

(** Sample arithmetic: no rounding error, and a stand-in for the sine that
    clamps its argument to [-1, 1]. *)
Definition demo_fl (q : Q) : Q := q.
Definition demo_sin (x : Q) : Q :=
  if Qlt_le_dec x (-1) then (-1)%Q
  else if Qlt_le_dec 1 x then 1%Q else x.

End Main.

(** ** Observations on traces and buffers *)

Module Observe.
Import Format Main.

(** The texts sent to the standard output, in order. *)
Fixpoint couts (t : list event) : list string :=
  match t with
  | [] => []
  | Cout text :: rest => text :: couts rest
  | _ :: rest => couts rest
  end.

(** The descriptor an event acts on, if any. *)
Definition fd_of (ev : event) : option Z :=
  match ev with
  | Tcgetattr fd | Tcsetattr fd _ _ | Write fd _ | Tcdrain fd | Close fd =>
      Some fd
  | _ => None
  end.

(** Events that only the failure path and the code after the loop
    produce. *)
Definition is_cerr_or_close (ev : event) : bool :=
  match ev with
  | Cerr _ | Close _ => true
  | _ => false
  end.

(** The calls that set the process and the device up. *)
Definition is_setup (ev : event) : bool :=
  match ev with
  | SchedSetscheduler _ _ _ | Perror _ | Open _ _ | Tcgetattr _
  | Tcsetattr _ _ _ => true
  | _ => false
  end.

(** A text that can be a C string: no NUL inside. *)
Fixpoint no_nul (s : string) : bool :=
  match s with
  | EmptyString => true
  | String c rest => negb (Ascii.eqb c NUL) && no_nul rest
  end.

(** The bits of [c_iflag] and [c_cflag] that lines 45-48 may change. *)
Definition IFLAG_TOUCHED : Z := Z.lor Termios.IBAUD0 Termios.RAW_IFLAG_OFF.
Definition CFLAG_TOUCHED : Z :=
  Z.lor (Z.lor Termios.CBAUD Termios.CBAUDEX)
    (Z.lor (Z.lor Termios.CSIZE Termios.PARENB)
       (Z.lor Termios.CREAD Termios.CLOCAL)).

End Observe.

(** ** How far the emitted value may be from the wave *)

Module Accuracy.
Import Timespec Main.

(** The distance between the decimal expansion <math.h> gives for [M_PI]
    and the number pi. *)
Definition pi_gap : R := Rabs (Q2R Double.M_PI_literal - PI).

(** The tolerance on a sample taken [T] seconds after [start], for
    arithmetic with relative rounding error [u] and absolute rounding
    error [eta], and a library sine correct to [eps]; the last term
    covers [pi_gap]. *)
Definition tolerance (u eta eps T : R) : R :=
  (4 * eps + (113 + 156 * T) * (u + eta) + 4 * T / 10 ^ 20)%R.

(** The measured elapsed time of tick [n], in seconds. *)
Definition elapsed_s (e : env) (n : nat) : R :=
  (IZR (elapsed_ns e n) / 1000000000)%R.

(** The number a line denotes, from its value in ten-thousandths. *)
Definition printed (k : Z) : R := (IZR k / 10000)%R.

(** A stand-in for the library sine: the sine rounded down to six
    decimals. *)
Definition grid_sin (x : Q) : Q :=
  Qmake (Int_part (sin (Q2R x) * 1000000)) 1000000.

End Accuracy.

(** * Properties *)

(** ** Facts about 64-bit wrap-around *)

Module Int64Facts.
Import Int64.

Lemma wrap64_small z : in_range z -> wrap64 z = z.
Proof.
  unfold in_range, min_signed, max_signed, wrap64. intros H.
  rewrite Z.mod_small; lia.
Qed.

Lemma wrap64_range z : in_range (wrap64 z).
Proof.
  unfold in_range, min_signed, max_signed, wrap64.
  pose proof (Z.mod_pos_bound (z + 2 ^ 63) (2 ^ 64) ltac:(lia)). lia.
Qed.

Lemma wrap64_add_l a b : wrap64 (wrap64 a + b) = wrap64 (a + b).
Proof.
  unfold wrap64. f_equal.
  replace ((a + 2 ^ 63) mod 2 ^ 64 - 2 ^ 63 + b + 2 ^ 63)
    with ((a + 2 ^ 63) mod 2 ^ 64 + b) by lia.
  rewrite Zplus_mod_idemp_l. f_equal. lia.
Qed.

End Int64Facts.

(** ** Facts about [add_ms] *)

Module TimespecFacts.
Import Int64 Int64Facts Timespec.

Lemma carry_loop_below t : tv_nsec t < 1000000000 -> carry_loop t = t.
Proof.
  intros H. rewrite carry_loop_equation_1.
  destruct (Z_ge_dec (tv_nsec t) 1000000000); [lia | reflexivity].
Qed.

Lemma carry_loop_above t :
  1000000000 <= tv_nsec t ->
  carry_loop t = carry_loop {| tv_sec := wrap64 (tv_sec t + 1);
                               tv_nsec := wrap64 (tv_nsec t - 1000000000) |}.
Proof.
  intros H. rewrite carry_loop_equation_1.
  destruct (Z_ge_dec (tv_nsec t) 1000000000); [reflexivity | lia].
Qed.

(** The loop carries every whole second of [tv_nsec] into [tv_sec]. *)
Lemma carry_loop_closed (k : nat) : forall t,
  in_range (tv_sec t) ->
  0 <= tv_nsec t <= max_signed ->
  tv_nsec t / 1000000000 = Z.of_nat k ->
  carry_loop t = {| tv_sec := wrap64 (tv_sec t + Z.of_nat k);
                    tv_nsec := tv_nsec t mod 1000000000 |}.
Proof.
  induction k as [| k IH]; intros [s ns] Hs Hns Hq; cbn [tv_sec tv_nsec] in *.
  - assert (ns < 1000000000)
      by (apply Z.div_small_iff in Hq; lia).
    rewrite carry_loop_below by assumption.
    rewrite Z.add_0_r, wrap64_small by assumption.
    rewrite Z.mod_small by lia. reflexivity.
  - assert (1000000000 <= ns).
    { destruct (Z_lt_le_dec ns 1000000000) as [Hlt | Hge]; [| exact Hge].
      rewrite Z.div_small in Hq by lia. lia. }
    rewrite carry_loop_above by assumption. cbn [tv_sec tv_nsec].
    assert (W : wrap64 (ns - 1000000000) = ns - 1000000000)
      by (apply wrap64_small; unfold in_range, min_signed, max_signed in *;
          lia).
    rewrite W.
    assert (Q : (ns - 1000000000) / 1000000000 = Z.of_nat k).
    { replace (ns - 1000000000) with (ns + (-1) * 1000000000) by lia.
      rewrite Z.div_add by lia. lia. }
    rewrite IH; cbn [tv_sec tv_nsec].
    + f_equal.
      * rewrite wrap64_add_l. f_equal. lia.
      * replace (ns - 1000000000) with (ns + (-1) * 1000000000) by lia.
        apply Z.mod_add. lia.
    + apply wrap64_range.
    + lia.
    + exact Q.
Qed.

(** [add_ms] in closed form, when neither field overflows. *)
Lemma add_ms_closed t ms :
  normalised t -> 0 <= ms ->
  in_range (tv_sec t) ->
  tv_nsec t + ms * 1000000 <= max_signed ->
  tv_sec t + (tv_nsec t + ms * 1000000) / 1000000000 <= max_signed ->
  add_ms t ms =
    {| tv_sec := tv_sec t + (tv_nsec t + ms * 1000000) / 1000000000;
       tv_nsec := (tv_nsec t + ms * 1000000) mod 1000000000 |}.
Proof.
  unfold normalised, NSEC_PER_SEC, add_ms. intros Hn Hms Hs Hsum Hsec.
  assert (Hmax : max_signed = 2 ^ 63 - 1) by reflexivity.
  assert (Hmin : min_signed = - 2 ^ 63) by reflexivity.
  assert (W1 : wrap64 (ms * 1000000) = ms * 1000000)
    by (apply wrap64_small; unfold in_range; lia).
  rewrite W1.
  assert (W2 : wrap64 (tv_nsec t + ms * 1000000) = tv_nsec t + ms * 1000000)
    by (apply wrap64_small; unfold in_range; lia).
  rewrite W2.
  set (total := tv_nsec t + ms * 1000000) in *.
  assert (Hq : 0 <= total / 1000000000) by (apply Z.div_pos; lia).
  rewrite (carry_loop_closed (Z.to_nat (total / 1000000000)));
    cbn [tv_sec tv_nsec].
  - rewrite Z2Nat.id by assumption.
    rewrite wrap64_small; [reflexivity |].
    unfold in_range in *. lia.
  - assumption.
  - lia.
  - rewrite Z2Nat.id by assumption. reflexivity.
Qed.

Lemma add_ms_normalised t ms :
  normalised t -> 0 <= ms ->
  in_range (tv_sec t) ->
  tv_nsec t + ms * 1000000 <= max_signed ->
  tv_sec t + (tv_nsec t + ms * 1000000) / 1000000000 <= max_signed ->
  normalised (add_ms t ms).
Proof.
  intros. rewrite add_ms_closed by assumption.
  unfold normalised, NSEC_PER_SEC. cbn [tv_nsec].
  apply Z.mod_pos_bound. lia.
Qed.

Lemma add_ms_to_ns t ms :
  normalised t -> 0 <= ms ->
  in_range (tv_sec t) ->
  tv_nsec t + ms * 1000000 <= max_signed ->
  tv_sec t + (tv_nsec t + ms * 1000000) / 1000000000 <= max_signed ->
  to_ns (add_ms t ms) = to_ns t + ms * 1000000.
Proof.
  intros. rewrite add_ms_closed by assumption.
  unfold to_ns, NSEC_PER_SEC. cbn [tv_sec tv_nsec].
  pose proof (Z.div_mod (tv_nsec t + ms * 1000000) 1000000000 ltac:(lia)).
  lia.
Qed.

Example add_ms_carries :
  add_ms (mkts 12 980000000) 50 = mkts 13 30000000.
Proof. reflexivity. Qed.

Example add_ms_without_carry :
  add_ms (mkts 12 100000000) 50 = mkts 12 150000000.
Proof. reflexivity. Qed.

(** Repeating [add_ms t 50]: the instant advances by 50 ms each time, as
    long as the seconds field can hold the result. *)
Lemma add_ms_iter t0 (n : nat) :
  normalised t0 ->
  in_range (tv_sec t0) ->
  tv_sec t0 + (tv_nsec t0 + Z.of_nat n * 50000000) / 1000000000
    <= max_signed ->
  normalised (Nat.iter n (fun t => add_ms t 50) t0) /\
  in_range (tv_sec (Nat.iter n (fun t => add_ms t 50) t0)) /\
  to_ns (Nat.iter n (fun t => add_ms t 50) t0)
    = to_ns t0 + Z.of_nat n * 50000000.
Proof.
  intros Hn Hs. induction n as [| n IH]; intros Hb.
  - change (Nat.iter 0 (fun t => add_ms t 50) t0) with t0.
    split; [exact Hn | split; [exact Hs |]].
    change (Z.of_nat 0) with 0. lia.
  - assert (Hb' : tv_sec t0 + (tv_nsec t0 + Z.of_nat n * 50000000)
                                / 1000000000 <= max_signed).
    { revert Hb. unfold normalised, NSEC_PER_SEC in Hn.
      rewrite Nat2Z.inj_succ. intros Hb.
      Z.div_mod_to_equations. lia. }
    destruct (IH Hb') as (In & Is & Ins). rewrite Nat.iter_succ.
    set (t := Nat.iter n (fun t => add_ms t 50) t0) in *.
    assert (Hmax : max_signed = 2 ^ 63 - 1) by reflexivity.
    assert (Hmin : min_signed = - 2 ^ 63) by reflexivity.
    assert (B1 : tv_nsec t + 50 * 1000000 <= max_signed)
      by (unfold normalised, NSEC_PER_SEC in In; lia).
    assert (B2 : tv_sec t + (tv_nsec t + 50 * 1000000) / 1000000000
                 <= max_signed).
    { revert Hb. rewrite Nat2Z.inj_succ.
      unfold to_ns, normalised, NSEC_PER_SEC in *. intros Hb.
      Z.div_mod_to_equations. lia. }
    split; [| split].
    + apply add_ms_normalised; assumption || lia.
    + rewrite add_ms_closed by (assumption || lia). cbn [tv_sec].
      unfold in_range in *. split; [| lia].
      assert (0 <= (tv_nsec t + 50 * 1000000) / 1000000000)
        by (apply Z.div_pos; unfold normalised, NSEC_PER_SEC in In; lia).
      lia.
    + rewrite add_ms_to_ns by (assumption || lia). lia.
Qed.

End TimespecFacts.

(** ** The loop of [main] in closed form *)

Module MainFacts.
Import Int64 Int64Facts Timespec TimespecFacts Termios Format Main.

Section Program.
Variable fl : Q -> Q.
Variable libm_sin : Q -> Q.

#[local] Abbreviation main := (Main.main fl libm_sin).
#[local] Abbreviation trace_after := (Main.trace_after fl libm_sin).

Lemma some_eq {A : Type} (a b : A) : Some a = Some b -> a = b.
Proof. intros H. injection H as H. exact H. Qed.

Lemma main_1 e : main e 1 = Some (prologue e).
Proof. cbn. destruct (prologue e); reflexivity. Qed.

Lemma prologue_open_failed e :
  open_result e = -1 ->
  prologue e =
    mkconfig (Returned 1)
             ((enable_realtime e
               ++ [Open port (Z.lor O_RDWR (Z.lor O_NOCTTY O_NDELAY))])
              ++ [Cerr ("Failed to open UART" ++ nl)]).
Proof. intros H. unfold prologue. rewrite H. reflexivity. Qed.

Lemma prologue_open_ok e :
  open_result e <> -1 ->
  exists t, prologue e = mkconfig (AtLoop (locals_after e 0)) t.
Proof.
  intros H. unfold prologue.
  destruct (Z.eqb_spec (open_result e) (-1)) as [E | _]; [contradiction |].
  eexists. reflexivity.
Qed.

(** After the prologue and [n] iterations, control is at the loop test
    with the locals and the trace of the closed forms. *)
Lemma main_loop e n :
  open_result e <> -1 ->
  main e (S n) = Some (mkconfig (AtLoop (locals_after e n))
                                (trace_after e n)).
Proof.
  intros H. induction n as [| n IH].
  - rewrite main_1. destruct (prologue_open_ok e H) as [t E].
    unfold trace_after. rewrite E. cbn. rewrite app_nil_r. reflexivity.
  - change (main e (S (S n)))
      with (match main e (S n) with
            | Some c => step fl libm_sin e c
            | None => None
            end).
    rewrite IH. unfold step. cbn [ctl trace loop_condition].
    unfold loop_body, locals_after, trace_after.
    cbn [serial_fd next start reads].
    rewrite seq_S, flat_map_app. cbn [flat_map]. rewrite app_nil_r.
    rewrite <- app_assoc. unfold tick_events, sleep_until, sample_at,
      transmitted, deadline.
    cbn [Nat.iter Nat.add app]. reflexivity.
Qed.

Lemma main_open_failed_1 e :
  open_result e = -1 ->
  main e 1 =
    Some (mkconfig (Returned 1)
            (enable_realtime e
             ++ [Open port (Z.lor O_RDWR (Z.lor O_NOCTTY O_NDELAY));
                 Cerr ("Failed to open UART" ++ nl)])).
Proof.
  intros H. rewrite main_1, prologue_open_failed by assumption.
  rewrite <- app_assoc. reflexivity.
Qed.

Lemma main_open_failed_after e n :
  open_result e = -1 -> main e (S (S n)) = None.
Proof.
  intros H. induction n as [| n IH].
  - change (main e 2)
      with (match main e 1 with
            | Some c => step fl libm_sin e c
            | None => None
            end).
    rewrite main_open_failed_1 by assumption. reflexivity.
  - change (main e (S (S (S n))))
      with (match main e (S (S n)) with
            | Some c => step fl libm_sin e c
            | None => None
            end).
    rewrite IH. reflexivity.
Qed.

(** With the device open, every configuration [main] reaches is the
    initial one or sits at the loop test. *)
Lemma main_open_ok_cases e n :
  open_result e <> -1 ->
  main e n = Some initial \/
  exists l t, main e n = Some (mkconfig (AtLoop l) t).
Proof.
  intros H. destruct n as [| n].
  - left. reflexivity.
  - right. eexists _, _. apply main_loop. assumption.
Qed.

Lemma writes_app t1 t2 : writes (t1 ++ t2) = writes t1 ++ writes t2.
Proof.
  induction t1 as [| ev t1 IH]; [reflexivity |].
  destruct ev; cbn; rewrite ?IH; reflexivity.
Qed.



Lemma writes_ticks e (l : list nat) :
  writes (flat_map (tick_events fl libm_sin e) l)
  = map (fun i => transmitted (sample_at fl libm_sin e i)) l.
Proof.
  induction l as [| i l IH]; [reflexivity |].
  cbn [flat_map map]. rewrite writes_app, IH. reflexivity.
Qed.

End Program.

(** The first tick of a run in which every call succeeds: the sample is
    the centre value. *)
Example first_line_of_demo :
  option_map (fun c => writes (trace c)) (Main.main demo_fl demo_sin demo_env 2)
  = Some [("4.0000" ++ CRLF)%string].
Proof. reflexivity. Qed.

Section Traces.
Variable fl : Q -> Q.
Variable libm_sin : Q -> Q.

Lemma deadlines_app t1 t2 :
  deadlines (t1 ++ t2) = deadlines t1 ++ deadlines t2.
Proof.
  induction t1 as [| ev t1 IH]; [reflexivity |].
  destruct ev; cbn; rewrite ?IH; reflexivity.
Qed.

Lemma deadlines_ticks e (l : list nat) :
  deadlines (flat_map (tick_events fl libm_sin e) l) = map (deadline e) l.
Proof.
  induction l as [| i l IH]; [reflexivity |].
  cbn [flat_map map]. rewrite deadlines_app, IH. reflexivity.
Qed.

Lemma deadlines_prologue e : deadlines (trace (prologue e)) = [].
Proof.
  unfold prologue, enable_realtime.
  destruct (open_result e =? -1), (sched_setscheduler_result e <? 0);
    reflexivity.
Qed.

Lemma writes_prologue e : writes (trace (prologue e)) = [].
Proof.
  unfold prologue, enable_realtime.
  destruct (open_result e =? -1), (sched_setscheduler_result e <? 0);
    reflexivity.
Qed.

End Traces.

End MainFacts.

(** ** The wake-up deadline *)

Import Int64 Int64Facts Timespec TimespecFacts Main MainFacts.

(** C9, as amended.  [add_ms] preserves normalisation and adds exactly
    [ms] milliseconds: for a timespec with [0 <= tv_nsec < 10^9] and a
    non-negative [ms], as long as the sum [tv_nsec + ms * 10^6] and the
    resulting seconds are representable in 64 bits, the result has
    [0 <= tv_nsec < 10^9] again and denotes the original instant plus
    [ms] milliseconds. *)
Theorem add_ms_preserves_normalisation t ms :
  normalised t ->
  0 <= ms ->
  in_range (tv_sec t) ->
  in_range (tv_nsec t + ms * 1000000) ->
  in_range (tv_sec t + (tv_nsec t + ms * 1000000) / 1000000000) ->
  normalised (add_ms t ms) /\
  to_ns (add_ms t ms) = to_ns t + ms * 1000000.
Proof.
  intros Hn Hms Hs [_ Hsum] [_ Hsec]. split.
  - apply add_ms_normalised; assumption.
  - apply add_ms_to_ns; assumption.
Qed.

Lemma add_ms_preserves_normalisation_witness :
  normalised (add_ms (mkts 7 980000000) 50) /\
  to_ns (add_ms (mkts 7 980000000) 50)
  = to_ns (mkts 7 980000000) + 50 * 1000000.
Proof.
  apply (add_ms_preserves_normalisation (mkts 7 980000000) 50);
    unfold normalised, in_range, min_signed, max_signed, NSEC_PER_SEC;
    cbn; lia.
Defined.

(** C9, as stated, fails: with [tv_nsec = 999999999] and
    [ms = 9223372036854] the product [ms * 10^6] is representable, but
    adding it to [tv_nsec] wraps around; the loop is not entered and the
    result has a negative [tv_nsec]. *)
Lemma add_ms_sum_overflow :
  normalised (mkts 0 999999999) /\
  0 <= 9223372036854 /\
  in_range (9223372036854 * 1000000) /\
  add_ms (mkts 0 999999999) 9223372036854 = mkts 0 (-9223372035855551617) /\
  ~ normalised (add_ms (mkts 0 999999999) 9223372036854).
Proof.
  assert (E : add_ms (mkts 0 999999999) 9223372036854
              = mkts 0 (-9223372035855551617)).
  { unfold add_ms. cbn [tv_sec tv_nsec]. apply carry_loop_below.
    vm_compute. reflexivity. }
  rewrite E.
  unfold normalised, in_range, min_signed, max_signed, NSEC_PER_SEC.
  cbn [tv_nsec].
  repeat split; lia.
Qed.

Section Deadline.
Variable fl : Q -> Q.
Variable libm_sin : Q -> Q.

(** C6.  After [n] iterations of the loop the deadline [next] is the
    initial deadline plus exactly [n] times 50 ms and it is normalised;
    the deadlines handed to [clock_nanosleep] so far are, in order, the
    initial one plus 0, 1, ..., [n - 1] times 50 ms; and [next] is the
    same whatever the clock returned after the first reading, since it is
    only ever advanced by [add_ms (next, 50)].  The seconds field is
    assumed to be able to hold the deadline. *)
Theorem deadline_is_initial_plus_n_steps (e : env) (n : nat) :
  open_result e <> -1 ->
  normalised (clock e 0) ->
  in_range (tv_sec (clock e 0)) ->
  tv_sec (clock e 0)
    + (tv_nsec (clock e 0) + (Z.of_nat n + 1) * 50000000) / 1000000000
    <= max_signed ->
  exists l0 tr0 ln trn,
    main fl libm_sin e 1 = Some (mkconfig (AtLoop l0) tr0) /\
    main fl libm_sin e (S n) = Some (mkconfig (AtLoop ln) trn) /\
    normalised (next ln) /\
    to_ns (next ln) = to_ns (next l0) + Z.of_nat n * 50000000 /\
    List.length (deadlines trn) = n /\
    (forall i d,
        nth_error (deadlines trn) i = Some d ->
        to_ns d = to_ns (next l0) + Z.of_nat i * 50000000) /\
    (forall e',
        open_result e' <> -1 -> clock e' 0 = clock e 0 ->
        exists l' tr',
          main fl libm_sin e' (S n) = Some (mkconfig (AtLoop l') tr') /\
          next l' = next ln).
Proof.
  intros Hopen Hn Hs Hb.
  exists (locals_after e 0), (trace_after fl libm_sin e 0),
         (locals_after e n), (trace_after fl libm_sin e n).
  split; [apply main_loop; assumption |].
  split; [apply main_loop; assumption |].
  cbn [locals_after next].
  assert (Hbound : forall k : nat,
            (k <= S n)%nat ->
            tv_sec (clock e 0)
            + (tv_nsec (clock e 0) + Z.of_nat k * 50000000) / 1000000000
            <= max_signed).
  { intros k Hk. etransitivity; [| exact Hb].
    apply Z.add_le_mono_l, Z.div_le_mono; lia. }
  assert (Hdl : forall k : nat,
            (k <= n)%nat ->
            normalised (deadline e k) /\
            to_ns (deadline e k)
            = to_ns (clock e 0) + Z.of_nat (S k) * 50000000).
  { intros k Hk. unfold deadline.
    destruct (add_ms_iter (clock e 0) (S k) Hn Hs (Hbound (S k) ltac:(lia)))
      as (Nk & _ & Ek).
    split; assumption. }
  destruct (Hdl 0%nat ltac:(lia)) as [_ E0].
  destruct (Hdl n ltac:(lia)) as [Nn En].
  assert (Hds : deadlines (trace_after fl libm_sin e n)
                = map (deadline e) (seq 0 n)).
  { unfold trace_after.
    rewrite deadlines_app, deadlines_prologue, deadlines_ticks.
    reflexivity. }
  split; [exact Nn |].
  split; [rewrite En, E0; lia |].
  split; [rewrite Hds, length_map, length_seq; reflexivity |].
  split.
  - intros i d Hi. rewrite Hds in Hi.
    rewrite nth_error_map, nth_error_seq in Hi.
    destruct (Nat.ltb_spec i n) as [Hlt | Hge]; [| discriminate Hi].
    cbn [option_map Nat.add] in Hi. apply some_eq in Hi. subst d.
    destruct (Hdl i ltac:(lia)) as [_ Ei]. rewrite Ei, E0. lia.
  - intros e' Hopen' Hclock.
    exists (locals_after e' n), (trace_after fl libm_sin e' n).
    split; [apply main_loop; assumption |].
    cbn [locals_after next]. unfold deadline. rewrite Hclock. reflexivity.
Qed.

End Deadline.

Lemma deadline_is_initial_plus_n_steps_witness :
  exists l0 tr0 ln trn,
    main demo_fl demo_sin demo_env 1 = Some (mkconfig (AtLoop l0) tr0) /\
    main demo_fl demo_sin demo_env 26 = Some (mkconfig (AtLoop ln) trn) /\
    normalised (next ln) /\
    to_ns (next ln) = to_ns (next l0) + Z.of_nat 25 * 50000000 /\
    List.length (deadlines trn) = 25%nat /\
    (forall i d,
        nth_error (deadlines trn) i = Some d ->
        to_ns d = to_ns (next l0) + Z.of_nat i * 50000000) /\
    (forall e',
        open_result e' <> -1 -> clock e' 0 = clock demo_env 0 ->
        exists l' tr',
          main demo_fl demo_sin e' 26 = Some (mkconfig (AtLoop l') tr') /\
          next l' = next ln).
Proof.
  apply (deadline_is_initial_plus_n_steps demo_fl demo_sin demo_env 25);
    unfold normalised, in_range, min_signed, max_signed, NSEC_PER_SEC;
    cbn; lia.
Defined.

(** ** Control flow of [main] *)

Section Control.
Variable fl : Q -> Q.
Variable libm_sin : Q -> Q.

#[local] Abbreviation run := (main fl libm_sin).

(** C4.  When [open] returns -1 the program writes the failure message to
    the error stream and returns 1 at once: it never reaches the loop,
    reads no clock and writes nothing to the device, and there is nothing
    after the return.  When [open] succeeds no configuration the program
    reaches is a return. *)
Theorem open_failure_exits_with_1 (e : env) :
  (open_result e = -1 ->
   exists tr,
     run e 1 = Some (mkconfig (Returned 1) tr) /\
     In (Cerr ("Failed to open UART" ++ nl)) tr /\
     writes tr = [] /\
     ~ In ClockGettime tr /\
     (forall n, run e (S (S n)) = None) /\
     (forall n c l, run e n = Some c -> ctl c <> AtLoop l))
  /\
  (open_result e <> -1 ->
   forall n, exists c,
     run e n = Some c /\ forall s, ctl c <> Returned s).
Proof.
  split.
  - intros H. eexists. split; [apply main_open_failed_1; exact H |].
    split; [apply in_or_app; right; right; left; reflexivity |].
    split; [| split; [| split]].
    + rewrite writes_app. unfold enable_realtime.
      destruct (sched_setscheduler_result e <? 0); reflexivity.
    + intros Hin. apply in_app_or in Hin. unfold enable_realtime in Hin.
      destruct Hin as [Hin | Hin].
      * destruct (sched_setscheduler_result e <? 0); cbn in Hin;
          intuition discriminate.
      * cbn in Hin. intuition discriminate.
    + intros n. apply main_open_failed_after. exact H.
    + intros n c l Hrun Hctl. destruct n as [| [| n]].
      * cbn in Hrun. injection Hrun as <-. discriminate Hctl.
      * rewrite main_open_failed_1 in Hrun by exact H.
        injection Hrun as <-. discriminate Hctl.
      * rewrite main_open_failed_after in Hrun by exact H. discriminate Hrun.
  - intros H n.
    destruct (main_open_ok_cases fl libm_sin e n H) as [E | (l & t & E)];
      rewrite E; eexists; (split; [reflexivity |]); intros s; discriminate.
Qed.

(** C8.  Once the device is open the program cannot stop by itself: the
    loop condition is the constant [true], every configuration the program
    reaches has a successor, a configuration at the loop test steps to the
    loop test again, and neither the statements after the loop nor a
    return are ever reached. *)
Theorem loop_never_terminates (e : env) :
  open_result e <> -1 ->
  loop_condition = true /\
  forall c, reachable fl libm_sin e c ->
    (exists c', step fl libm_sin e c = Some c') /\
    (forall l, ctl c = AtLoop l ->
       exists l' t', step fl libm_sin e c = Some (mkconfig (AtLoop l') t')) /\
    (forall l, ctl c <> AfterLoop l) /\
    (forall s, ctl c <> Returned s).
Proof.
  intros H. split; [reflexivity |]. intros c [n Hn].
  assert (Hnext : run e (S n) = step fl libm_sin e c)
    by (cbn [main]; rewrite Hn; reflexivity).
  rewrite main_loop in Hnext by exact H.
  split; [eexists; symmetry; exact Hnext |].
  split; [intros l _; eexists _, _; symmetry; exact Hnext |].
  destruct (main_open_ok_cases fl libm_sin e n H) as [E | (l & t & E)];
    rewrite E in Hn; injection Hn as <-; split; intros ?; discriminate.
Qed.

End Control.

Lemma open_failure_exits_with_1_witness :
  (exists tr,
     main demo_fl demo_sin demo_env_no_uart 1
       = Some (mkconfig (Returned 1) tr) /\
     In (Cerr ("Failed to open UART" ++ nl)) tr /\
     writes tr = [] /\
     ~ In ClockGettime tr /\
     (forall n, main demo_fl demo_sin demo_env_no_uart (S (S n)) = None) /\
     (forall n c l,
         main demo_fl demo_sin demo_env_no_uart n = Some c ->
         ctl c <> AtLoop l))
  /\
  (forall n, exists c,
     main demo_fl demo_sin demo_env n = Some c /\
     forall s, ctl c <> Returned s).
Proof.
  split.
  - apply (proj1 (open_failure_exits_with_1 demo_fl demo_sin
                    demo_env_no_uart)).
    reflexivity.
  - apply (proj2 (open_failure_exits_with_1 demo_fl demo_sin demo_env)).
    cbn. lia.
Defined.

Lemma loop_never_terminates_witness :
  loop_condition = true /\
  forall c, reachable demo_fl demo_sin demo_env c ->
    (exists c', step demo_fl demo_sin demo_env c = Some c') /\
    (forall l, ctl c = AtLoop l ->
       exists l' t',
         step demo_fl demo_sin demo_env c = Some (mkconfig (AtLoop l') t')) /\
    (forall l, ctl c <> AfterLoop l) /\
    (forall s, ctl c <> Returned s).
Proof.
  apply (loop_never_terminates demo_fl demo_sin demo_env). cbn. lia.
Defined.


(** ** The priority request *)

Section Priority.
Variable fl : Q -> Q.
Variable libm_sin : Q -> Q.


End Priority.


(** ** The serial configuration *)

Module TermiosFacts.
Import Termios.

(** Bit [n] of a non-negative constant, for [n] beyond its top bit. *)
Ltac high_bits n :=
  repeat match goal with
         | |- context [Z.testbit (Zpos ?p) n] =>
             rewrite (Z.bits_above_log2 (Zpos p) n) by (cbn; lia)
         | |- context [Z.testbit 0 n] => rewrite (Z.testbit_0_l n)
         end.

(** Runs [tac] with [n] replaced by each of [k - 1], ..., [0] in turn,
    given that [0 <= n < k]. *)
Ltac each_index n k tac :=
  lazymatch k with
  | O => exfalso; lia
  | S ?k' =>
      let z := eval cbv in (Z.of_nat k') in
      destruct (Z.eq_dec n z) as [-> | ?]; [tac | each_index n k' tac]
  end.

Ltac one_bit :=
  idtac;
  match goal with
  | |- context [Z.testbit ?x ?k] =>
      is_var x; destruct (Z.testbit x k); reflexivity
  | _ => reflexivity
  end.

(** Decides an equation between bitwise combinations of one flag word
    and 32-bit constants: bit by bit below 32, all at once above. *)
Ltac flag_eq :=
  apply Z.bits_inj'; intros n Hn;
  repeat first [ rewrite Z.land_spec | rewrite Z.lor_spec
               | rewrite Z.lnot_spec by exact Hn ];
  destruct (Z_lt_le_dec n 32) as [Hlt | Hge];
  [ each_index n 32%nat one_bit | high_bits n; one_bit ].

Ltac flag_words :=
  unfold set_bits, clear_bits;
  cbv [CBAUD CBAUDEX B115200 CSIZE PARENB CS8 CREAD CLOCAL IBAUD0
       RAW_IFLAG_OFF RAW_LFLAG_OFF IGNBRK BRKINT PARMRK ISTRIP INLCR IGNCR
       ICRNL IXON OPOST ECHO ECHONL ICANON ISIG IEXTEN].

Lemma configure_fields t :
  configure t =
    mktermios
      (clear_bits (clear_bits (c_iflag t) IBAUD0) RAW_IFLAG_OFF)
      (clear_bits (c_oflag t) OPOST)
      (set_bits
         (set_bits
            (clear_bits
               (set_bits
                  (clear_bits
                     (set_bits (clear_bits (c_cflag t) (Z.lor CBAUD CBAUDEX))
                               B115200)
                     (Z.lor CBAUD CBAUDEX))
                  B115200)
               (Z.lor CSIZE PARENB))
            CS8)
         (Z.lor CREAD CLOCAL))
      (clear_bits (c_lflag t) RAW_LFLAG_OFF)
      (set_cc (set_cc (c_cc t) VMIN 1) VTIME 0)
      B115200 B115200.
Proof. reflexivity. Qed.

(** The baud bits survive [cfmakeraw] and the last assignment. *)
Lemma speed_bits_kept c :
  Z.land
    (set_bits
       (set_bits
          (clear_bits
             (set_bits
                (clear_bits
                   (set_bits (clear_bits c (Z.lor CBAUD CBAUDEX)) B115200)
                   (Z.lor CBAUD CBAUDEX))
                B115200)
             (Z.lor CSIZE PARENB))
          CS8)
       (Z.lor CREAD CLOCAL))
    (Z.lor CBAUD CBAUDEX)
  = B115200.
Proof. flag_words. flag_eq. Qed.

(** The character size and parity bits survive the last assignment. *)
Lemma size_bits_kept c :
  Z.land
    (set_bits
       (set_bits
          (clear_bits
             (set_bits
                (clear_bits
                   (set_bits (clear_bits c (Z.lor CBAUD CBAUDEX)) B115200)
                   (Z.lor CBAUD CBAUDEX))
                B115200)
             (Z.lor CSIZE PARENB))
          CS8)
       (Z.lor CREAD CLOCAL))
    (Z.lor CSIZE PARENB)
  = CS8.
Proof. flag_words. flag_eq. Qed.

Lemma set_bits_sets c m1 m2 :
  Z.land (set_bits c (Z.lor m1 m2)) m1 = m1 /\
  Z.land (set_bits c (Z.lor m1 m2)) m2 = m2.
Proof.
  unfold set_bits. split; apply Z.bits_inj'; intros n _;
    rewrite Z.land_spec, !Z.lor_spec;
    destruct (Z.testbit c n), (Z.testbit m1 n), (Z.testbit m2 n);
    reflexivity.
Qed.

Lemma clear_bits_clears x m : Z.land (clear_bits x m) m = 0.
Proof.
  unfold clear_bits. apply Z.bits_inj'; intros n Hn.
  rewrite !Z.land_spec, Z.lnot_spec, Z.testbit_0_l by exact Hn.
  destruct (Z.testbit x n), (Z.testbit m n); reflexivity.
Qed.

Lemma input_baud_flag_cleared x :
  Z.land (clear_bits (clear_bits x IBAUD0) RAW_IFLAG_OFF) IBAUD0 = 0.
Proof. flag_words. flag_eq. Qed.

End TermiosFacts.

Import Termios TermiosFacts.

(** C7.  When the device opens, the attributes handed to [tcsetattr] are
    [configure] applied to what [tcgetattr] returned, whatever that was,
    and they satisfy the four postconditions: input and output speed are
    [B115200], the terminal is in raw mode, and [CREAD] and [CLOCAL] are
    set in [c_cflag]. *)
Theorem serial_configuration (e : env) :
  open_result e <> -1 ->
  exists options,
    In (Tcsetattr (open_result e) TCSANOW options) (trace (prologue e)) /\
    options = configure (tcgetattr_result e) /\
    cfgetispeed options = B115200 /\
    cfgetospeed options = B115200 /\
    raw_mode options /\
    flag_set (c_cflag options) CREAD /\
    flag_set (c_cflag options) CLOCAL.
Proof.
  intros Hopen. exists (configure (tcgetattr_result e)).
  split.
  { unfold prologue.
    destruct (Z.eqb_spec (open_result e) (-1)); [contradiction |].
    cbn [trace]. apply in_or_app. right. cbn. auto. }
  split; [reflexivity |].
  rewrite configure_fields. set (t := tcgetattr_result e).
  unfold cfgetispeed, cfgetospeed, raw_mode, flag_set.
  cbn [c_iflag c_oflag c_cflag c_lflag c_cc].
  rewrite input_baud_flag_cleared, speed_bits_kept, size_bits_kept.
  rewrite !clear_bits_clears.
  split; [reflexivity |].
  split; [reflexivity |].
  split; [repeat split |].
  apply set_bits_sets.
Qed.

Lemma serial_configuration_witness :
  exists options,
    In (Tcsetattr (open_result demo_env) TCSANOW options)
       (trace (prologue demo_env)) /\
    options = configure (tcgetattr_result demo_env) /\
    cfgetispeed options = B115200 /\
    cfgetospeed options = B115200 /\
    raw_mode options /\
    flag_set (c_cflag options) CREAD /\
    flag_set (c_cflag options) CLOCAL.
Proof.
  apply (serial_configuration demo_env). cbn. lia.
Defined.

(** ** Formatting and the buffer *)

Module FormatFacts.
Import Format.
Local Open Scope Z_scope.

Example format_line_centre :
  format_line 4 = ("4.0000" ++ CRLF)%string.
Proof. reflexivity. Qed.

(** 1/32 = 0.03125 and 3/32 = 0.09375 are doubles half-way between two
    printable values; the even last digit wins. *)
Example format_line_ties :
  format_line (1 # 32) = ("0.0312" ++ CRLF)%string /\
  format_line (3 # 32) = ("0.0938" ++ CRLF)%string.
Proof. split; reflexivity. Qed.

(** A text longer than the buffer is cut to 31 characters. *)
Example buffer_cuts_long_text :
  String.length (format_line (inject_Z (10 ^ 30))) = 38%nat /\
  String.length (transmitted (inject_Z (10 ^ 30))) = 31%nat.
Proof. split; reflexivity. Qed.

(** Rounding to the nearest integer keeps a value between the integers
    that bound it. *)
Lemma round_half_even_bounds (q : Q) (a b : Z) :
  (inject_Z a <= q)%Q -> (q <= inject_Z b)%Q ->
  a <= round_half_even q <= b.
Proof.
  destruct q as [n d]. unfold Qle, round_half_even. cbn [Qnum Qden inject_Z].
  intros Ha Hb.
  pose proof (Z.div_mod n (Zpos d) ltac:(lia)) as Hdm.
  pose proof (Z.mod_pos_bound n (Zpos d) ltac:(lia)) as Hr.
  set (f := n / Zpos d) in *. set (r := n mod Zpos d) in *.
  assert (Hfa : a <= f) by nia.
  assert (Hfb : f <= b) by nia.
  assert (Hfull : f = b -> r = 0) by nia.
  destruct (Z.compare_spec (2 * r) (Zpos d)) as [E | L | G].
  - destruct (Z.even f); lia.
  - lia.
  - lia.
Qed.

(** The rounded value is within one half of the exact one. *)
Lemma round_half_even_close (q : Q) :
  (Qabs (q - inject_Z (round_half_even q)) <= 1 # 2)%Q.
Proof.
  destruct q as [n d]. apply Qabs_Qle_condition.
  unfold Qle, Qminus, Qplus, Qopp, round_half_even.
  cbn [Qnum Qden inject_Z].
  pose proof (Z.div_mod n (Zpos d) ltac:(lia)) as Hdm.
  pose proof (Z.mod_pos_bound n (Zpos d) ltac:(lia)) as Hr.
  set (f := n / Zpos d) in *. set (r := n mod Zpos d) in *.
  rewrite !Pos2Z.inj_mul.
  destruct (Z.compare_spec (2 * r) (Zpos d)) as [E | L | G];
    [destruct (Z.even f) | |]; nia.
Qed.

Lemma ten_thousandths_range (y : Q) :
  (0 <= y)%Q -> (y <= 8)%Q -> 0 <= ten_thousandths y <= 80000.
Proof.
  intros H0 H8. unfold ten_thousandths.
  apply round_half_even_bounds.
  - change (inject_Z 0) with (0 * 10000)%Q.
    apply Qmult_le_compat_r; [exact H0 | discriminate].
  - change (inject_Z 80000) with (8 * 10000)%Q.
    apply Qmult_le_compat_r; [exact H8 | discriminate].
Qed.

(** A property checked on every integer below a bound holds below that
    bound. *)
Lemma checked_below (P : Z -> bool) (bound : nat) :
  forallb P (map Z.of_nat (seq 0 bound)) = true ->
  forall d, 0 <= d < Z.of_nat bound -> P d = true.
Proof.
  intros Hall d Hd. rewrite forallb_forall in Hall. apply Hall.
  rewrite <- (Z2Nat.id d) by lia. apply in_map, in_seq. lia.
Qed.

Lemma digit_is_digit d : 0 <= d <= 9 -> is_digit (digit d) = true.
Proof.
  intros Hd.
  apply (checked_below (fun d => is_digit (digit d)) 10); [reflexivity | lia].
Qed.

Lemma digit_value_digit d : 0 <= d <= 9 -> digit_value (digit d) = d.
Proof.
  intros Hd. apply Z.eqb_eq.
  apply (checked_below (fun d => digit_value (digit d) =? d) 10);
    [reflexivity | lia].
Qed.

Lemma digit_not_nul d : 0 <= d <= 9 -> Ascii.eqb (digit d) NUL = false.
Proof.
  intros Hd. apply negb_true_iff.
  apply (checked_below (fun d => negb (Ascii.eqb (digit d) NUL)) 10);
    [reflexivity | lia].
Qed.

Lemma int_text_one_digit z :
  0 <= z <= 9 -> int_text z = String (digit z) EmptyString.
Proof.
  intros Hd. apply String.eqb_eq.
  apply (checked_below
           (fun z => String.eqb (int_text z) (String (digit z) EmptyString))
           10); [reflexivity | lia].
Qed.

Lemma format_line_spelled (y : Q) :
  (0 <= y)%Q -> (y <= 8)%Q ->
  exists a b1 b2 b3 b4,
    format_line y = spelled a b1 b2 b3 b4 /\
    0 <= a <= 8 /\ 0 <= b1 <= 9 /\ 0 <= b2 <= 9 /\
    0 <= b3 <= 9 /\ 0 <= b4 <= 9 /\
    a * 10000 + b1 * 1000 + b2 * 100 + b3 * 10 + b4 = ten_thousandths y.
Proof.
  intros H0 H8. pose proof (ten_thousandths_range y H0 H8) as Hk.
  set (k := ten_thousandths y) in *.
  exists (k / 10000), (k mod 10000 / 1000 mod 10),
         (k mod 10000 / 100 mod 10), (k mod 10000 / 10 mod 10),
         (k mod 10000 mod 10).
  split.
  - unfold format_line, fixed4. fold k.
    destruct (Qlt_le_dec y 0) as [Hneg | _];
      [exfalso; exact (Qlt_not_le _ _ Hneg H0) |].
    rewrite Z.abs_eq by lia.
    rewrite int_text_one_digit by (Z.div_mod_to_equations; lia).
    reflexivity.
  - repeat split; Z.div_mod_to_equations; lia.
Qed.

Lemma spelled_length a b1 b2 b3 b4 :
  String.length (spelled a b1 b2 b3 b4) = 8%nat.
Proof. reflexivity. Qed.

Lemma spelled_buffer a b1 b2 b3 b4 :
  snprintf BUFFER_SIZE (spelled a b1 b2 b3 b4)
  = (spelled a b1 b2 b3 b4 ++ String NUL EmptyString)%string.
Proof. reflexivity. Qed.

Lemma spelled_strlen a b1 b2 b3 b4 :
  0 <= a <= 9 -> 0 <= b1 <= 9 -> 0 <= b2 <= 9 -> 0 <= b3 <= 9 ->
  0 <= b4 <= 9 ->
  strlen (spelled a b1 b2 b3 b4 ++ String NUL EmptyString) = 8%nat.
Proof.
  intros. unfold spelled. cbn [strlen append CRLF].
  rewrite !digit_not_nul by assumption. reflexivity.
Qed.

Lemma spelled_read a b1 b2 b3 b4 :
  0 <= a <= 9 -> 0 <= b1 <= 9 -> 0 <= b2 <= 9 -> 0 <= b3 <= 9 ->
  0 <= b4 <= 9 ->
  read_line (spelled a b1 b2 b3 b4)
  = Some (a * 10000 + b1 * 1000 + b2 * 100 + b3 * 10 + b4).
Proof.
  intros. unfold spelled, read_line.
  cbn [read_integer read_fraction].
  rewrite !digit_is_digit, !digit_value_digit by assumption.
  change (is_digit ".") with false. change (Ascii.eqb "." ".") with true.
  cbn [andb read_fraction].
  change (String.eqb CRLF CRLF) with true. cbv iota.
  f_equal. lia.
Qed.

(** For a sample in [0, 8] the buffer holds the whole line and [write]
    sends all of it. *)
Lemma transmitted_in_range (y : Q) :
  (0 <= y)%Q -> (y <= 8)%Q ->
  buffer_of y = (format_line y ++ String NUL EmptyString)%string /\
  transmitted y = format_line y.
Proof.
  intros H0 H8.
  destruct (format_line_spelled y H0 H8)
    as (a & b1 & b2 & b3 & b4 & E & Ha & Hb1 & Hb2 & Hb3 & Hb4 & _).
  unfold transmitted, buffer_of. rewrite E, spelled_buffer.
  split; [reflexivity |].
  rewrite spelled_strlen by lia. reflexivity.
Qed.

End FormatFacts.

(** ** The range of the sample in rounded arithmetic *)

Section RoundedRange.
Variable fl : Q -> Q.
Variable libm_sin : Q -> Q.

(** Rounding is monotone and leaves the integers up to 8 alone; the
    library sine stays within [-1, 1]. *)
Hypothesis fl_monotone : forall x y : Q, (x <= y)%Q -> (fl x <= fl y)%Q.
Hypothesis fl_small_integers :
  forall z : Z, -8 <= z <= 8 -> (fl (inject_Z z) == inject_Z z)%Q.
Hypothesis sin_range : forall x : Q, (-1 <= libm_sin x <= 1)%Q.

Lemma rounded_sine_range (t : Q) :
  (0 <= Double.sine (Double.Rounded fl libm_sin) t <= 8)%Q.
Proof.
  unfold Double.sine, Double.amplitude, Double.offset.
  cbn [Double.f_add Double.f_mul Double.f_sin Double.f_lit Double.Rounded].
  match goal with
  | |- context [libm_sin ?x] =>
      pose proof (sin_range x) as [Hlo Hhi]; revert Hlo Hhi;
      generalize (libm_sin x); intros s Hlo Hhi
  end.
  assert (E4 : (fl 4 == 4)%Q) by (apply (fl_small_integers 4); lia).
  assert (Em4 : (fl (-4) == -4)%Q) by (apply (fl_small_integers (-4)); lia).
  assert (E0 : (fl 0 == 0)%Q) by (apply (fl_small_integers 0); lia).
  assert (E8 : (fl 8 == 8)%Q) by (apply (fl_small_integers 8); lia).
  assert (P1 : (-4 <= fl 4 * s <= 4)%Q) by (rewrite E4; split; Lqa.lra).
  assert (P2 : (-4 <= fl (fl 4 * s) <= 4)%Q).
  { split.
    - rewrite <- Em4. apply fl_monotone, P1.
    - rewrite <- E4 at 2. apply fl_monotone, P1. }
  assert (P3 : (0 <= fl (fl 4 * s) + fl 4 <= 8)%Q)
    by (split; Lqa.lra).
  split.
  - rewrite <- E0. apply fl_monotone, P3.
  - rewrite <- E8. apply fl_monotone, P3.
Qed.

Lemma sample_at_range (e : env) (n : nat) :
  (0 <= sample_at fl libm_sin e n <= 8)%Q.
Proof. apply rounded_sine_range. Qed.

End RoundedRange.

Import Format FormatFacts.

(** C10.  For a sample in [0, 8] the formatted line has at most 8
    characters, so with its terminating NUL it fits the 32-byte buffer
    without truncation, and the [strlen (buffer)] bytes handed to [write]
    are the whole line, CR and LF included. *)
Theorem buffer_never_truncates (y : Q) :
  (0 <= y)%Q -> (y <= 8)%Q ->
  (String.length (format_line y) <= 8)%nat /\
  (String.length (format_line y) + 1 <= BUFFER_SIZE)%nat /\
  buffer_of y = (format_line y ++ String NUL EmptyString)%string /\
  strlen (buffer_of y) = String.length (format_line y) /\
  transmitted y = (fixed4 y ++ CRLF)%string.
Proof.
  intros H0 H8.
  destruct (transmitted_in_range y H0 H8) as [Hbuf Hsent].
  destruct (format_line_spelled y H0 H8)
    as (a & b1 & b2 & b3 & b4 & E & Ha & Hb1 & Hb2 & Hb3 & Hb4 & _).
  rewrite Hbuf, Hsent, E, spelled_length, spelled_strlen by lia.
  rewrite <- E. unfold BUFFER_SIZE.
  repeat split; lia.
Qed.

Lemma buffer_never_truncates_witness :
  (String.length (format_line (1 # 32)) <= 8)%nat /\
  (String.length (format_line (1 # 32)) + 1 <= BUFFER_SIZE)%nat /\
  buffer_of (1 # 32)
    = (format_line (1 # 32) ++ String NUL EmptyString)%string /\
  strlen (buffer_of (1 # 32)) = String.length (format_line (1 # 32)) /\
  transmitted (1 # 32) = (fixed4 (1 # 32) ++ CRLF)%string.
Proof.
  apply (buffer_never_truncates (1 # 32)); unfold Qle; cbn; lia.
Defined.

Section Lines.
Variable fl : Q -> Q.
Variable libm_sin : Q -> Q.
Hypothesis fl_monotone : forall x y : Q, (x <= y)%Q -> (fl x <= fl y)%Q.
Hypothesis fl_small_integers :
  forall z : Z, -8 <= z <= 8 -> (fl (inject_Z z) == inject_Z z)%Q.
Hypothesis sin_range : forall x : Q, (-1 <= libm_sin x <= 1)%Q.


End Lines.

Lemma demo_fl_monotone (x y : Q) : (x <= y)%Q -> (demo_fl x <= demo_fl y)%Q.
Proof. intros H. exact H. Qed.

Lemma demo_fl_small_integers (z : Z) :
  -8 <= z <= 8 -> (demo_fl (inject_Z z) == inject_Z z)%Q.
Proof. intros _. reflexivity. Qed.

Lemma demo_sin_range (x : Q) : (-1 <= demo_sin x <= 1)%Q.
Proof.
  unfold demo_sin.
  destruct (Qlt_le_dec x (-1)); [split; Lqa.lra |].
  destruct (Qlt_le_dec 1 x); split; Lqa.lra.
Qed.


(** ** The wave over the real numbers *)

Module WaveFacts.
Local Open Scope R_scope.

Lemma spec_sample_after (n : nat) :
  spec_sample n = sample_after (Z.of_nat n * 50000000).
Proof.
  unfold spec_sample, sample_after.
  rewrite mult_IZR, <- INR_IZR_INZ. do 3 f_equal. Lra.lra.
Qed.

(** A sample half a second into the wave is at least 6. *)
Lemma sample_after_550ms : 6 <= sample_after 550000000.
Proof.
  unfold sample_after.
  pose proof PI_RGT_0 as Hpi.
  assert (H : sin (PI / 6)
              <= sin (2 * PI * (33 / 100) * (550000000 / 1000000000)))
    by (apply sin_incr_1; Lra.lra).
  rewrite sin_PI6 in H. Lra.lra.
Qed.

(** The value the specification expects at tick 1 is below 5. *)
Lemma spec_sample_1_below_5 : spec_sample 1 < 5.
Proof.
  unfold spec_sample. change (INR 1) with 1.
  pose proof PI_RGT_0 as Hpi. pose proof PI_4 as Hpi4.
  assert (H : sin (2 * PI * (33 / 100) * (1 * (50 / 1000)))
              < 2 * PI * (33 / 100) * (1 * (50 / 1000)))
    by (apply sin_lt_x; Lra.lra).
  Lra.lra.
Qed.

End WaveFacts.

Import WaveFacts.


(** ** The emitted value against the wave *)

Module AccuracyFacts.
Import Accuracy.
Local Open Scope R_scope.

Lemma abs_bounds (x a : R) : Rabs x <= a -> - a <= x <= a.
Proof. unfold Rabs. destruct (Rcase_abs x); Lra.lra. Qed.

Lemma abs_sin_le (h : R) : Rabs (sin h) <= Rabs h.
Proof.
  assert (Hpos : forall z, 0 < z -> - z <= sin z <= z).
  { intros z Hz. split; [| left; apply sin_lt_x; exact Hz].
    destruct (Rle_lt_dec 1 z) as [H1 | H1].
    - pose proof (SIN_bound z). Lra.lra.
    - assert (0 < sin z) by (apply sin_gt_0; [| pose proof PI2_1]; Lra.lra).
      Lra.lra. }
  destruct (Rtotal_order h 0) as [Hneg | [-> | Hpos']].
  - destruct (Hpos (- h) ltac:(Lra.lra)) as [L U]. rewrite sin_neg in L, U.
    rewrite (Rabs_left h) by exact Hneg. apply Rabs_le. Lra.lra.
  - rewrite sin_0. Lra.lra.
  - destruct (Hpos h Hpos') as [L U].
    rewrite (Rabs_right h) by Lra.lra. apply Rabs_le. Lra.lra.
Qed.

Lemma sin_lipschitz (a b : R) : Rabs (sin a - sin b) <= Rabs (a - b).
Proof.
  rewrite form4, !Rabs_mult.
  pose proof (COS_bound ((a + b) / 2)) as Hc.
  assert (Hc' : Rabs (cos ((a + b) / 2)) <= 1) by (apply Rabs_le; Lra.lra).
  pose proof (abs_sin_le ((a - b) / 2)) as Hs.
  pose proof (Rabs_pos (sin ((a - b) / 2))) as Hs0.
  pose proof (Rabs_pos (cos ((a + b) / 2))) as Hc0.
  replace (Rabs ((a - b) / 2)) with (Rabs (a - b) / 2) in Hs.
  - rewrite (Rabs_right 2) by Lra.lra. nra.
  - unfold Rdiv. rewrite Rabs_mult, (Rabs_right (/ 2)) by Lra.lra.
    reflexivity.
Qed.

Lemma Q2R_of_Z (z : Z) : Q2R (inject_Z z) = IZR z.
Proof. unfold Q2R. cbn. Lra.lra. Qed.


Section Model.
Variables fl libm_sin : Q -> Q.
Variables u eta eps Omega : R.
Hypothesis u_small : 0 <= u <= 1 / 128.
Hypothesis eta_small : 0 <= eta <= 1 / 128.
Hypothesis Omega_large : 2 ^ 60 <= Omega.
Hypothesis fl_error :
  forall q : Q,
    Rabs (Q2R q) <= Omega ->
    Rabs (Q2R (fl q) - Q2R q) <= u * Rabs (Q2R q) + eta.
Hypothesis fl_integers :
  forall z : Z, (Z.abs z <= 2 ^ 53)%Z -> (fl (inject_Z z) == inject_Z z)%Q.
Hypothesis sin_error :
  forall x : Q, Rabs (Q2R (libm_sin x) - sin (Q2R x)) <= eps.
Hypothesis sin_range : forall x : Q, (-1 <= libm_sin x <= 1)%Q.

Lemma fl_integer (z : Z) :
  (Z.abs z <= 2 ^ 53)%Z -> Q2R (fl (inject_Z z)) = IZR z.
Proof.
  intros H. rewrite (Qeq_eqR _ _ (fl_integers z H)). apply Q2R_of_Z.
Qed.

(** Rounding a value known to within [E] of [x]. *)
Lemma fl_step (q : Q) (x E M : R) :
  Rabs (Q2R q - x) <= E -> Rabs x <= M -> M + E <= Omega ->
  Rabs (Q2R (fl q) - x) <= E + u * (M + E) + eta.
Proof.
  intros Hq Hx Hr.
  assert (Hmag : Rabs (Q2R q) <= M + E).
  { replace (Q2R q) with ((Q2R q - x) + x) by Lra.lra.
    eapply Rle_trans; [apply Rabs_triang |]. Lra.lra. }
  pose proof (fl_error q ltac:(Lra.lra)) as Hf.
  replace (Q2R (fl q) - x) with ((Q2R (fl q) - Q2R q) + (Q2R q - x))
    by Lra.lra.
  eapply Rle_trans; [apply Rabs_triang |].
  assert (u * Rabs (Q2R q) <= u * (M + E))
    by (apply Rmult_le_compat_l; Lra.lra).
  Lra.lra.
Qed.

Lemma pi_literal_bounds : 3 < Q2R Double.M_PI_literal < 4.
Proof. unfold Q2R, Double.M_PI_literal. cbn [Qnum Qden]. Lra.lra. Qed.

Lemma pi_bounds : 3 < PI <= 4.
Proof. pose proof PI2_3_2. pose proof PI_4. Lra.lra. Qed.

(** The literal of <math.h> is pi to twenty decimals, by Machin's
    series. *)
Lemma pi_gap_small : pi_gap <= 1 / 10 ^ 20.
Proof.
  pose proof (PI_2_3_7_ineq 10) as [L U].
  unfold sum_f_R0, tg_alt, PI_2_3_7_tg, Ratan_seq in L, U.
  cbn [Nat.mul Nat.add] in L, U.
  rewrite !S_INR in L, U. cbn [INR] in L, U.
  unfold pi_gap, Q2R, Double.M_PI_literal. cbn [Qnum Qden].
  apply Rabs_le. split; Lra.lra.
Qed.

Lemma pi_gap_bounds : 0 <= pi_gap < 1.
Proof.
  unfold pi_gap. split; [apply Rabs_pos |].
  pose proof pi_literal_bounds. pose proof pi_bounds.
  apply Rabs_def1; Lra.lra.
Qed.

(** The angular frequency the program uses against 2 pi 0.33. *)
Lemma rounded_omega :
  let w := Q2R (Double.f_mul (Double.Rounded fl libm_sin)
                  (Double.two_pi (Double.Rounded fl libm_sin))
                  (Double.freq (Double.Rounded fl libm_sin))) in
  Rabs (w - 2 * PI * (33 / 100)) <= 25 * (u + eta) + pi_gap /\
  Rabs w <= 8.
Proof.
  cbn zeta. unfold Double.two_pi, Double.freq.
  cbn [Double.f_mul Double.f_of_Z Double.f_pi Double.f_lit Double.Rounded].
  pose proof pi_literal_bounds as HM. pose proof pi_bounds as HP.
  pose proof pi_gap_bounds as HG.
  assert (Hgap : - pi_gap <= Q2R Double.M_PI_literal - PI <= pi_gap)
    by (apply abs_bounds; unfold pi_gap; Lra.lra).
  assert (HO : 2 ^ 60 = 1152921504606846976) by Lra.lra.
  (* M_PI *)
  assert (E1 : Rabs (Q2R (fl Double.M_PI_literal) - Q2R Double.M_PI_literal)
               <= 4 * u + eta).
  { eapply Rle_trans; [apply fl_error |].
    - rewrite Rabs_right; Lra.lra.
    - rewrite Rabs_right by Lra.lra. nra. }
  apply abs_bounds in E1.
  set (ph := Q2R (fl Double.M_PI_literal)) in *.
  (* 2 * M_PI *)
  assert (E2 : Rabs (Q2R (fl (fl (inject_Z 2) * fl Double.M_PI_literal))
                     - 2 * PI) <= 19 * (u + eta) + 2 * pi_gap).
  { eapply Rle_trans.
    - apply (fl_step _ (2 * PI) (2 * (4 * u + eta + pi_gap)) 8).
      + rewrite Q2R_mult, fl_integer by lia. fold ph.
        apply Rabs_le. Lra.lra.
      + apply Rabs_le. Lra.lra.
      + Lra.lra.
    - nra. }
  apply abs_bounds in E2.
  set (w1 := Q2R (fl (fl (inject_Z 2) * fl Double.M_PI_literal))) in *.
  (* 0.33 *)
  assert (HF : Q2R (33 # 100) = 33 / 100)
    by (unfold Q2R; cbn [Qnum Qden]; Lra.lra).
  assert (E3 : Rabs (Q2R (fl (33 # 100)) - 33 / 100) <= u + eta).
  { rewrite <- HF. eapply Rle_trans; [apply fl_error |].
    - rewrite HF, Rabs_right; Lra.lra.
    - rewrite HF, Rabs_right by Lra.lra. nra. }
  apply abs_bounds in E3.
  set (fq := Q2R (fl (33 # 100))) in *.
  (* the product *)
  assert (E4 : Rabs (Q2R (fl (fl (fl (inject_Z 2) * fl Double.M_PI_literal)
                               * fl (33 # 100)))
                     - 2 * PI * (33 / 100)) <= 25 * (u + eta) + pi_gap).
  { eapply Rle_trans.
    - apply (fl_step _ (2 * PI * (33 / 100))
               (35 / 2 * (u + eta) + pi_gap) 3).
      + rewrite Q2R_mult. fold w1 fq. apply Rabs_le. nra.
      + apply Rabs_le. Lra.lra.
      + Lra.lra.
    - nra. }
  split; [exact E4 |].
  apply abs_bounds in E4. apply Rabs_le. Lra.lra.
Qed.


(** The elapsed time the program computes against the measured one. *)
Lemma rounded_t_sec (start now : timespec) :
  valid_reading start -> valid_reading now ->
  (Z.abs (tv_sec now - tv_sec start) <= 2 ^ 53)%Z ->
  let t := IZR (to_ns now - to_ns start) / 1000000000 in
  Rabs (Q2R (Double.t_sec (Double.Rounded fl libm_sin) start now) - t)
  <= (u + eta) * (3 + Rabs t).
Proof.
  unfold valid_reading, normalised, NSEC_PER_SEC, max_signed.
  intros [Hs Hsn] [Hn Hnn] Hd.
  set (t := IZR (to_ns now - to_ns start) / 1000000000).
  unfold Double.t_sec.
  cbn [Double.f_add Double.f_div Double.f_of_Z Double.f_lit Double.Rounded].
  rewrite !wrap64_small by (unfold in_range, min_signed, max_signed; lia).
  set (ds := (tv_sec now - tv_sec start)%Z) in *.
  set (dn := (tv_nsec now - tv_nsec start)%Z) in *.
  assert (Ht : t = IZR ds + IZR dn / 1000000000).
  { unfold t, to_ns, NSEC_PER_SEC.
    replace (tv_sec now * 1000000000 + tv_nsec now
             - (tv_sec start * 1000000000 + tv_nsec start))%Z
      with (ds * 1000000000 + dn)%Z by (unfold ds, dn; lia).
    rewrite plus_IZR, mult_IZR. Lra.lra. }
  assert (Hdn : -1000000000 < IZR dn < 1000000000)
    by (split; apply IZR_lt; unfold dn; lia).
  assert (Hds : -9007199254740992 <= IZR ds <= 9007199254740992)
    by (split; apply IZR_le; lia).
  assert (HO : 2 ^ 60 = 1152921504606846976) by Lra.lra.
  change (fl 1000000000%Q) with (fl (inject_Z 1000000000)).
  assert (Hg : ~ (fl (inject_Z 1000000000) == 0)%Q).
  { rewrite fl_integers by lia. discriminate. }
  set (d := IZR dn / 1000000000).
  assert (Hq : Q2R (fl (inject_Z dn) / fl (inject_Z 1000000000)) = d).
  { rewrite Q2R_div by exact Hg.
    rewrite !fl_integer by (unfold dn; lia). reflexivity. }
  assert (Hdb : -1 < d < 1) by (unfold d; Lra.lra).
  assert (Ed : Rabs (Q2R (fl (fl (inject_Z dn) / fl (inject_Z 1000000000)))
                     - d) <= u + eta).
  { rewrite <- Hq. eapply Rle_trans; [apply fl_error |].
    - rewrite Hq. apply Rabs_le. Lra.lra.
    - rewrite Hq.
      assert (Rabs d <= 1) by (apply Rabs_le; Lra.lra). nra. }
  assert (HT : Rabs t <= 9007199254740993) by (apply Rabs_le; Lra.lra).
  pose proof (Rabs_pos t) as HT0.
  eapply Rle_trans.
  - apply (fl_step _ t (u + eta) (Rabs t)).
    + rewrite Q2R_plus, fl_integer by lia. rewrite Ht.
      replace (IZR ds + _ - (IZR ds + IZR dn / 1000000000))
        with (Q2R (fl (fl (inject_Z dn) / fl (inject_Z 1000000000))) - d)
        by (unfold d; Lra.lra).
      exact Ed.
    + Lra.lra.
    + Lra.lra.
  - nra.
Qed.


(** The sample the program computes against the wave at the measured
    elapsed time. *)
Lemma rounded_sample_error (start now : timespec) :
  valid_reading start -> valid_reading now ->
  (Z.abs (tv_sec now - tv_sec start) <= 2 ^ 53)%Z ->
  Rabs (Q2R (Double.sample (Double.Rounded fl libm_sin) start now)
        - sample_after (to_ns now - to_ns start))
  <= tolerance u eta eps
       (Rabs (IZR (to_ns now - to_ns start) / 1000000000)).
Proof.
  intros Hs Hn Hd.
  pose proof (rounded_t_sec start now Hs Hn Hd) as Et. cbn zeta in Et.
  pose proof rounded_omega as [Ew Mw]. 
  unfold sample_after, tolerance, Double.sample, Double.sine,
    Double.amplitude, Double.offset.
  set (t := IZR (to_ns now - to_ns start) / 1000000000) in *.
  set (TS := Double.t_sec (Double.Rounded fl libm_sin) start now) in *.
  set (W := Double.f_mul (Double.Rounded fl libm_sin)
              (Double.two_pi (Double.Rounded fl libm_sin))
              (Double.freq (Double.Rounded fl libm_sin))) in *.
  cbn [Double.f_add Double.f_mul Double.f_sin Double.f_lit Double.Rounded].
  set (om := 2 * PI * (33 / 100)) in *.
  set (T := Rabs t) in *.
  set (v := u + eta) in *.
  pose proof pi_gap_bounds as HG. pose proof pi_bounds as HP.
  pose proof (Rabs_pos t) as HT0. fold T in HT0.
  assert (Hv : 0 <= v <= 1 / 64) by (unfold v; Lra.lra).
  assert (HO : 2 ^ 60 = 1152921504606846976) by Lra.lra.
  assert (HT : T <= 9007199254740993).
  { unfold T, t, valid_reading, normalised, NSEC_PER_SEC, max_signed in *.
    destruct Hs as [Hs Hsn], Hn as [Hn Hnn].
    assert (-9007199254740993 * 1000000000
            <= IZR (to_ns now - to_ns start)
            <= 9007199254740993 * 1000000000).
    { rewrite <- !mult_IZR.
      split; apply IZR_le; unfold to_ns, NSEC_PER_SEC; lia. }
    apply Rabs_le. Lra.lra. }
  assert (Hom : 0 <= om <= 3) by (unfold om; Lra.lra).
  (* the argument of the sine *)
  assert (Earg : Rabs (Q2R (W * TS) - om * t)
                 <= 8 * (v * (3 + T)) + T * (25 * v + pi_gap)).
  { rewrite Q2R_mult.
    replace (Q2R W * Q2R TS - om * t)
      with (Q2R W * (Q2R TS - t) + t * (Q2R W - om)) by Lra.lra.
    eapply Rle_trans; [apply Rabs_triang |]. rewrite !Rabs_mult.
    apply Rplus_le_compat.
    - apply Rmult_le_compat; auto using Rabs_pos.
    - apply Rmult_le_compat; auto using Rabs_pos. apply Rle_refl. }
  assert (Marg : Rabs (om * t) <= 3 * T).
  { rewrite Rabs_mult, (Rabs_right om) by Lra.lra. fold T. nra. }
  assert (HvT : 0 <= v * T <= T / 64) by nra.
  assert (HgT : 0 <= T * pi_gap <= T) by nra.
  assert (Ex : Rabs (Q2R (fl (W * TS)) - om * t)
               <= 25 * v + 38 * (v * T) + T * pi_gap).
  { eapply Rle_trans.
    - apply (fl_step _ (om * t) _ (3 * T) Earg Marg). Lra.lra.
    - assert (HuT : 0 <= u * T) by nra.
      assert (HeT : 0 <= eta * T) by nra.
      assert (0 <= u * u <= u / 128) by nra.
      assert (0 <= u * eta <= u / 128) by nra.
      assert (0 <= u * u * T <= u * T / 128) by nra.
      assert (0 <= u * eta * T <= u * T / 128) by nra.
      assert (0 <= u * T * pi_gap <= u * T) by nra.
      unfold v in *. Lra.lra. }
  set (X := fl (W * TS)) in *.
  (* the sine *)
  assert (Es : Rabs (Q2R (libm_sin X) - sin (om * t))
               <= eps + (25 * v + 38 * (v * T) + T * pi_gap)).
  { replace (Q2R (libm_sin X) - sin (om * t))
      with ((Q2R (libm_sin X) - sin (Q2R X)) + (sin (Q2R X) - sin (om * t)))
      by Lra.lra.
    eapply Rle_trans; [apply Rabs_triang |].
    pose proof (sin_error X). pose proof (sin_lipschitz (Q2R X) (om * t)).
    Lra.lra. }
  assert (Ms : -1 <= Q2R (libm_sin X) <= 1).
  { destruct (sin_range X) as [L U].
    apply Qle_Rle in L, U. unfold Q2R in L, U. cbn [Qnum Qden] in L, U.
    unfold Q2R. Lra.lra. }
  set (s := Q2R (libm_sin X)) in *.
  change (fl 4%Q) with (fl (inject_Z 4)).
  (* amplitude * sine *)
  assert (Hp : Q2R (fl (inject_Z 4) * libm_sin X) = 4 * s)
    by (rewrite Q2R_mult, fl_integer by lia; reflexivity).
  assert (Ep : Rabs (Q2R (fl (fl (inject_Z 4) * libm_sin X)) - 4 * s)
               <= 4 * u + eta).
  { rewrite <- Hp. eapply Rle_trans; [apply fl_error |].
    - rewrite Hp. apply Rabs_le. Lra.lra.
    - rewrite Hp.
      assert (Rabs (4 * s) <= 4) by (apply Rabs_le; Lra.lra). nra. }
  set (p := Q2R (fl (fl (inject_Z 4) * libm_sin X))) in *.
  apply abs_bounds in Ep.
  (* ... + offset *)
  assert (Hy : Q2R (fl (fl (inject_Z 4) * libm_sin X) + fl (inject_Z 4))
               = p + 4)
    by (rewrite Q2R_plus, fl_integer by lia; reflexivity).
  assert (Ey : Rabs (Q2R (fl (fl (fl (inject_Z 4) * libm_sin X)
                              + fl (inject_Z 4))) - (p + 4))
               <= 9 * u + eta).
  { rewrite <- Hy. eapply Rle_trans; [apply fl_error |].
    - rewrite Hy. apply Rabs_le. Lra.lra.
    - rewrite Hy.
      assert (Rabs (p + 4) <= 9) by (apply Rabs_le; Lra.lra). nra. }
  apply abs_bounds in Ey. apply abs_bounds in Es.
  assert (HgT' : T * pi_gap <= T / 10 ^ 20)
    by (pose proof pi_gap_small; nra).
  apply Rabs_le. unfold v in *. Lra.lra.
Qed.

End Model.


(** The decimal text against the value it prints. *)
Lemma printed_close (y : Q) :
  Rabs (printed (Format.ten_thousandths y) - Q2R y) <= 1 / 20000.
Proof.
  pose proof (FormatFacts.round_half_even_close (y * 10000)) as H.
  apply Qabs_Qle_condition in H. destruct H as [L U].
  apply Qle_Rle in L, U.
  rewrite Q2R_minus, Q2R_mult, Q2R_of_Z in L, U.
  fold (Format.ten_thousandths y) in L, U.
  set (r := Q2R y) in *. set (k := IZR (Format.ten_thousandths y)) in *.
  unfold Q2R in L, U. cbn [Qnum Qden Qopp Z.opp] in L, U.
  unfold printed. fold k. apply Rabs_le. Lra.lra.
Qed.

(** [grid_sin] is a sine correct to six decimals. *)
Lemma grid_sin_error (x : Q) :
  Rabs (Q2R (grid_sin x) - sin (Q2R x)) <= 1 / 1000000.
Proof.
  unfold grid_sin, Q2R. cbn [Qnum Qden].
  destruct (base_Int_part (sin (Q2R x) * 1000000)) as [L U].
  fold (Q2R x) in *. apply Rabs_le. Lra.lra.
Qed.

Lemma grid_sin_range (x : Q) : (-1 <= grid_sin x <= 1)%Q.
Proof.
  pose proof (SIN_bound (Q2R x)) as [Lo Hi].
  destruct (base_Int_part (sin (Q2R x) * 1000000)) as [L U].
  assert (B : (-1000000 <= Int_part (sin (Q2R x) * 1000000) <= 1000000)%Z).
  { split.
    - apply Z.lt_succ_r, lt_IZR. rewrite succ_IZR. Lra.lra.
    - apply le_IZR. Lra.lra. }
  unfold grid_sin, Qle. cbn [Qnum Qden]. lia.
Qed.

End AccuracyFacts.

Import Accuracy AccuracyFacts.

(** ** The emitted value: range *)

Section EmittedRange.
Variable fl : Q -> Q.
Variable libm_sin : Q -> Q.
Hypothesis fl_monotone : forall x y : Q, (x <= y)%Q -> (fl x <= fl y)%Q.
Hypothesis fl_small_integers :
  forall z : Z, -8 <= z <= 8 -> (fl (inject_Z z) == inject_Z z)%Q.
Hypothesis sin_range : forall x : Q, (-1 <= libm_sin x <= 1)%Q.

(** C2.  The [double] that line 78 computes lies between offset -
    amplitude and offset + amplitude, that is within [0, 8], for every
    elapsed time; so does the sample of every tick of [main], and every
    line [main] writes carries a decimal number between 0.0000 and
    8.0000.  (Rounding to [double] is assumed monotone and exact on the
    integers up to 8, and the library sine to stay within [-1, 1].) *)
Theorem emitted_value_within_offset_plus_minus_amplitude
  (e : env) (n : nat) :
  open_result e <> -1 ->
  (forall t_sec : Q,
      let y := Double.sine (Double.Rounded fl libm_sin) t_sec in
      (Double.offset (Double.Rounded fl libm_sin)
       - Double.amplitude (Double.Rounded fl libm_sin) <= y)%Q /\
      (y <= Double.offset (Double.Rounded fl libm_sin)
            + Double.amplitude (Double.Rounded fl libm_sin))%Q /\
      (0 <= y <= 8)%Q) /\
  exists c,
    main fl libm_sin e (S n) = Some c /\
    writes (trace c)
      = map (fun i => format_line (sample_at fl libm_sin e i)) (seq 0 n) /\
    forall i,
      (0 <= sample_at fl libm_sin e i <= 8)%Q /\
      exists k,
        read_line (format_line (sample_at fl libm_sin e i)) = Some k /\
        0 <= k <= 80000.
Proof.
  intros Hopen.
  assert (Hrange : forall t : Q,
            (0 <= Double.sine (Double.Rounded fl libm_sin) t <= 8)%Q)
    by (apply rounded_sine_range; assumption).
  split.
  - intros t y. destruct (Hrange t) as [H0 H8]. fold y in H0, H8.
    assert (E4 : (fl 4 == 4)%Q) by (apply (fl_small_integers 4); lia).
    unfold Double.offset, Double.amplitude.
    cbn [Double.f_lit Double.Rounded].
    repeat split; try assumption; Lqa.lra.
  - eexists. split; [apply main_loop; exact Hopen |].
    cbn [trace]. unfold trace_after.
    rewrite writes_app, writes_prologue, writes_ticks. cbn [app].
    split.
    + apply map_ext. intros i.
      destruct (Hrange (Double.t_sec (Double.Rounded fl libm_sin)
                          (clock e 1) (clock e (i + 2)))) as [H0 H8].
      apply transmitted_in_range; assumption.
    + intros i.
      destruct (Hrange (Double.t_sec (Double.Rounded fl libm_sin)
                          (clock e 1) (clock e (i + 2)))) as [H0 H8].
      change (Double.sine _ _) with (sample_at fl libm_sin e i) in H0, H8.
      split; [split; assumption |].
      destruct (format_line_spelled _ H0 H8)
        as (a & b1 & b2 & b3 & b4 & E & Ha & Hb1 & Hb2 & Hb3 & Hb4 & Hk).
      exists (ten_thousandths (sample_at fl libm_sin e i)).
      split; [rewrite E, spelled_read by lia; rewrite Hk; reflexivity |].
      apply ten_thousandths_range; assumption.
Qed.

End EmittedRange.

Lemma emitted_value_within_offset_plus_minus_amplitude_witness :
  (forall t_sec : Q,
      let y := Double.sine (Double.Rounded demo_fl demo_sin) t_sec in
      (Double.offset (Double.Rounded demo_fl demo_sin)
       - Double.amplitude (Double.Rounded demo_fl demo_sin) <= y)%Q /\
      (y <= Double.offset (Double.Rounded demo_fl demo_sin)
            + Double.amplitude (Double.Rounded demo_fl demo_sin))%Q /\
      (0 <= y <= 8)%Q) /\
  exists c,
    main demo_fl demo_sin demo_env 4 = Some c /\
    writes (trace c)
      = map (fun i => format_line (sample_at demo_fl demo_sin demo_env i))
            (seq 0 3) /\
    forall i,
      (0 <= sample_at demo_fl demo_sin demo_env i <= 8)%Q /\
      exists k,
        read_line (format_line (sample_at demo_fl demo_sin demo_env i))
        = Some k /\
        0 <= k <= 80000.
Proof.
  apply (emitted_value_within_offset_plus_minus_amplitude demo_fl demo_sin
           demo_fl_monotone demo_fl_small_integers demo_sin_range
           demo_env 3).
  cbn. lia.
Defined.

(** ** The emitted value: accuracy *)

Section EmittedAccuracy.
Variable fl : Q -> Q.
Variable libm_sin : Q -> Q.
Variables u eta eps Omega : R.

(** The arithmetic: rounding is monotone, exact on the integers up to
    2^53, and in error by at most [u |x| + eta] for [|x| <= Omega]; the
    library sine stays within [-1, 1] and is correct to [eps].  For
    IEEE binary64, [u] is 2^-53, [eta] the smallest subnormal and [Omega]
    the largest finite number. *)
Hypothesis u_small : (0 <= u <= 1 / 128)%R.
Hypothesis eta_small : (0 <= eta <= 1 / 128)%R.
Hypothesis Omega_large : (2 ^ 60 <= Omega)%R.
Hypothesis fl_error :
  forall q : Q,
    (Rabs (Q2R q) <= Omega ->
     Rabs (Q2R (fl q) - Q2R q) <= u * Rabs (Q2R q) + eta)%R.
Hypothesis fl_integers :
  forall z : Z, Z.abs z <= 2 ^ 53 -> (fl (inject_Z z) == inject_Z z)%Q.
Hypothesis fl_monotone : forall x y : Q, (x <= y)%Q -> (fl x <= fl y)%Q.
Hypothesis sin_error :
  forall x : Q, (Rabs (Q2R (libm_sin x) - sin (Q2R x)) <= eps)%R.
Hypothesis sin_range : forall x : Q, (-1 <= libm_sin x <= 1)%Q.

(** C1, as amended.  The value [main] emits at tick [n] is the wave at
    the time the monotonic clock shows at that tick, not at [n] periods:
    the line written at tick [n] is the text of the sample, the sample is
    within [tolerance] of 4 sin (2 pi 0.33 t) + 4 for the measured elapsed
    time [t], and the number printed is within half a unit of its last
    digit more.  When the clock is read exactly [n] periods of 50 ms after
    [start], this is the value of the specification. *)
Theorem emitted_value_follows_measured_time (e : env) (n : nat) :
  open_result e <> -1 ->
  valid_reading (clock e 1) ->
  valid_reading (clock e (n + 2)) ->
  Z.abs (tv_sec (clock e (n + 2)) - tv_sec (clock e 1)) <= 2 ^ 53 ->
  exists c k,
    main fl libm_sin e (S (S n)) = Some c /\
    nth_error (writes (trace c)) n
      = Some (format_line (sample_at fl libm_sin e n)) /\
    read_line (format_line (sample_at fl libm_sin e n)) = Some k /\
    (Rabs (Q2R (sample_at fl libm_sin e n) - sample_after (elapsed_ns e n))
     <= tolerance u eta eps (Rabs (elapsed_s e n)))%R /\
    (Rabs (printed k - sample_after (elapsed_ns e n))
     <= tolerance u eta eps (Rabs (elapsed_s e n)) + 1 / 20000)%R /\
    (elapsed_ns e n = Z.of_nat n * 50000000 ->
     (Rabs (printed k - spec_sample n)
      <= tolerance u eta eps (INR n * (50 / 1000)) + 1 / 20000)%R).
Proof.
  intros Hopen Hs Hn Hd.
  assert (fl_small : forall z : Z,
            -8 <= z <= 8 -> (fl (inject_Z z) == inject_Z z)%Q)
    by (intros z Hz; apply fl_integers; lia).
  destruct (sample_at_range fl libm_sin fl_monotone fl_small sin_range e n)
    as [H0 H8].
  set (y := sample_at fl libm_sin e n) in *.
  destruct (format_line_spelled y H0 H8)
    as (a & b1 & b2 & b3 & b4 & E & Ha & Hb1 & Hb2 & Hb3 & Hb4 & Hk).
  exists (mkconfig (AtLoop (locals_after e (S n)))
                   (trace_after fl libm_sin e (S n))),
         (ten_thousandths y).
  split; [apply main_loop; exact Hopen |].
  split.
  { cbn [trace]. unfold trace_after.
    rewrite writes_app, writes_prologue, writes_ticks. cbn [app].
    rewrite nth_error_map, nth_error_seq.
    destruct (Nat.ltb_spec n (S n)) as [_ | Hge]; [| lia].
    cbn [option_map Nat.add]. fold y. f_equal.
    apply transmitted_in_range; assumption. }
  split; [rewrite E, spelled_read by lia; rewrite Hk; reflexivity |].
  assert (Herr : (Rabs (Q2R y - sample_after (elapsed_ns e n))
                  <= tolerance u eta eps (Rabs (elapsed_s e n)))%R)
    by (apply (rounded_sample_error fl libm_sin u eta eps Omega);
        assumption).
  assert (Hprint : (Rabs (printed (ten_thousandths y)
                          - sample_after (elapsed_ns e n))
                    <= tolerance u eta eps (Rabs (elapsed_s e n))
                       + 1 / 20000)%R).
  { pose proof (printed_close y) as Hp.
    replace (printed (ten_thousandths y) - sample_after (elapsed_ns e n))%R
      with ((printed (ten_thousandths y) - Q2R y)
            + (Q2R y - sample_after (elapsed_ns e n)))%R by Lra.lra.
    eapply Rle_trans; [apply Rabs_triang |]. Lra.lra. }
  split; [exact Herr |].
  split; [exact Hprint |].
  intros Hon. rewrite spec_sample_after, <- Hon.
  replace (INR n * (50 / 1000))%R with (Rabs (elapsed_s e n));
    [exact Hprint |].
  unfold elapsed_s. rewrite Hon, mult_IZR, <- INR_IZR_INZ.
  pose proof (pos_INR n). rewrite Rabs_right; Lra.lra.
Qed.

End EmittedAccuracy.

Lemma demo_fl_error (q : Q) :
  (Rabs (Q2R q) <= 2 ^ 60 ->
   Rabs (Q2R (demo_fl q) - Q2R q) <= 0 * Rabs (Q2R q) + 0)%R.
Proof.
  intros _. unfold demo_fl.
  replace (Q2R q - Q2R q)%R with 0%R by Lra.lra.
  rewrite Rabs_R0. Lra.lra.
Qed.

Lemma demo_fl_integers (z : Z) :
  Z.abs z <= 2 ^ 53 -> (demo_fl (inject_Z z) == inject_Z z)%Q.
Proof. intros _. reflexivity. Qed.

Lemma emitted_value_follows_measured_time_witness :
  exists c k,
    main demo_fl grid_sin demo_env 5 = Some c /\
    nth_error (writes (trace c)) 3
      = Some (format_line (sample_at demo_fl grid_sin demo_env 3)) /\
    read_line (format_line (sample_at demo_fl grid_sin demo_env 3))
      = Some k /\
    (Rabs (Q2R (sample_at demo_fl grid_sin demo_env 3)
           - sample_after (elapsed_ns demo_env 3))
     <= tolerance 0 0 (1 / 1000000) (Rabs (elapsed_s demo_env 3)))%R /\
    (Rabs (printed k - sample_after (elapsed_ns demo_env 3))
     <= tolerance 0 0 (1 / 1000000) (Rabs (elapsed_s demo_env 3))
        + 1 / 20000)%R /\
    (elapsed_ns demo_env 3 = Z.of_nat 3 * 50000000 ->
     (Rabs (printed k - spec_sample 3)
      <= tolerance 0 0 (1 / 1000000) (INR 3 * (50 / 1000)) + 1 / 20000)%R).
Proof.
  apply (emitted_value_follows_measured_time demo_fl grid_sin
           0 0 (1 / 1000000) (2 ^ 60)
           ltac:(Lra.lra) ltac:(Lra.lra) ltac:(Lra.lra)
           demo_fl_error demo_fl_integers demo_fl_monotone
           grid_sin_error grid_sin_range demo_env 3);
    unfold valid_reading, normalised, max_signed, NSEC_PER_SEC;
    cbn; lia.
Defined.

(** C1, as stated, fails.  On [late_env] the first deadline is 50 ms and
    the clock shows 550 ms when tick 1 reads it.  With exact arithmetic
    and a sine correct to six decimals, the line [main] writes at tick 1
    prints a number above 5.9, while the specification expects a value
    below 5: they differ by far more than the tolerance. *)
Lemma late_wakeup_line_differs :
  deadline late_env 0 = mkts 0 50000000 /\
  clock late_env 3 = mkts 0 550000000 /\
  exists c k,
    main demo_fl grid_sin late_env 3 = Some c /\
    nth_error (writes (trace c)) 1
      = Some (format_line (sample_at demo_fl grid_sin late_env 1)) /\
    read_line (format_line (sample_at demo_fl grid_sin late_env 1))
      = Some k /\
    (Rabs (printed k - spec_sample 1)
     > tolerance 0 0 (1 / 1000000) (INR 1 * (50 / 1000)) + 1 / 20000)%R.
Proof.
  split; [reflexivity |]. split; [reflexivity |].
  destruct (sample_at_range demo_fl grid_sin demo_fl_monotone
              demo_fl_small_integers grid_sin_range late_env 1)
    as [H0 H8].
  set (y := sample_at demo_fl grid_sin late_env 1) in *.
  destruct (format_line_spelled y H0 H8)
    as (a & b1 & b2 & b3 & b4 & E & Ha & Hb1 & Hb2 & Hb3 & Hb4 & Hk).
  exists (mkconfig (AtLoop (locals_after late_env 2))
                   (trace_after demo_fl grid_sin late_env 2)),
         (ten_thousandths y).
  split; [apply main_loop; cbn; lia |].
  split.
  { cbn [trace]. unfold trace_after.
    rewrite writes_app, writes_prologue, writes_ticks. cbn [app].
    rewrite nth_error_map, nth_error_seq. cbn [Nat.ltb Nat.leb option_map].
    cbn [Nat.add]. fold y. f_equal.
    apply transmitted_in_range; assumption. }
  split; [rewrite E, spelled_read by lia; rewrite Hk; reflexivity |].
  (* the sample is at least 5.99 *)
  assert (Hy : (5999 / 1000 <= Q2R y)%R).
  { unfold y, sample_at, sample_of, Double.sample, Double.sine,
      Double.amplitude, Double.offset.
    cbn [Double.f_add Double.f_mul Double.f_sin Double.f_lit Double.Rounded].
    unfold demo_fl.
    match goal with |- context [grid_sin ?x] => set (X := x) end.
    assert (HX : (114 # 100 <= X)%Q /\ (X <= 115 # 100)%Q)
      by (split; unfold Qle; vm_compute; discriminate).
    destruct HX as [XL XU]. apply Qle_Rle in XL, XU.
    assert (L : Q2R (114 # 100) = (114 / 100)%R)
      by (unfold Q2R; cbn [Qnum Qden]; Lra.lra).
    assert (U : Q2R (115 # 100) = (115 / 100)%R)
      by (unfold Q2R; cbn [Qnum Qden]; Lra.lra).
    rewrite L in XL. rewrite U in XU.
    pose proof PI2_3_2 as Hlo. pose proof PI_4 as Hhi.
    assert (Hsin : (sin (PI / 6) <= sin (Q2R X))%R)
      by (apply sin_incr_1; Lra.lra).
    rewrite sin_PI6 in Hsin.
    pose proof (grid_sin_error X) as Hg. apply abs_bounds in Hg.
    rewrite Q2R_plus, Q2R_mult.
    replace (Q2R 4) with 4%R by (unfold Q2R; cbn [Qnum Qden]; Lra.lra).
    Lra.lra. }
  pose proof (printed_close y) as Hp. apply abs_bounds in Hp.
  pose proof spec_sample_1_below_5 as Hspec.
  unfold tolerance. change (INR 1) with 1%R.
  unfold Rabs. destruct (Rcase_abs _); Lra.lra.
Qed.

(** * Further properties of the code *)

Import Observe.

(** ** [add_ms] outside its intended use *)

(** X1.  [add_ms] adds exactly [ms] milliseconds whatever the sign of [ms]
    and whether or not the argument is normalised, as long as nothing
    overflows; the result always has [tv_nsec < 10^9], and it is
    normalised exactly when [tv_nsec + ms * 10^6] is not negative. *)
Theorem add_ms_adds_for_any_sign t ms :
  in_range (tv_sec t) ->
  in_range (ms * 1000000) ->
  in_range (tv_nsec t + ms * 1000000) ->
  tv_sec t + (tv_nsec t + ms * 1000000) / 1000000000 <= max_signed ->
  to_ns (add_ms t ms) = to_ns t + ms * 1000000 /\
  tv_nsec (add_ms t ms) < 1000000000 /\
  (normalised (add_ms t ms) <-> 0 <= tv_nsec t + ms * 1000000).
Proof.
  intros Hs Hp Hsum Hsec. unfold add_ms.
  rewrite (wrap64_small (ms * 1000000)) by exact Hp.
  rewrite (wrap64_small (tv_nsec t + ms * 1000000)) by exact Hsum.
  set (total := tv_nsec t + ms * 1000000) in *.
  assert (Hmax : max_signed = 2 ^ 63 - 1) by reflexivity.
  assert (Hmin : min_signed = - 2 ^ 63) by reflexivity.
  destruct (Z_lt_le_dec total 0) as [Hneg | Hpos].
  - rewrite carry_loop_below by (cbn [tv_nsec]; lia).
    unfold to_ns, normalised, NSEC_PER_SEC. cbn [tv_sec tv_nsec].
    repeat split; lia.
  - assert (Hq : 0 <= total / 1000000000) by (apply Z.div_pos; lia).
    rewrite (carry_loop_closed (Z.to_nat (total / 1000000000)));
      cbn [tv_sec tv_nsec];
      [| assumption | unfold in_range in Hsum; lia
       | rewrite Z2Nat.id by assumption; reflexivity].
    rewrite Z2Nat.id by assumption.
    rewrite wrap64_small by (unfold in_range in *; lia).
    unfold to_ns, normalised, NSEC_PER_SEC. cbn [tv_sec tv_nsec].
    pose proof (Z.div_mod total 1000000000 ltac:(lia)).
    pose proof (Z.mod_pos_bound total 1000000000 ltac:(lia)).
    repeat split; lia.
Qed.

Lemma add_ms_adds_for_any_sign_witness :
  to_ns (add_ms (mkts 3 2500000000) (-700))
  = to_ns (mkts 3 2500000000) + -700 * 1000000 /\
  tv_nsec (add_ms (mkts 3 2500000000) (-700)) < 1000000000 /\
  (normalised (add_ms (mkts 3 2500000000) (-700))
   <-> 0 <= tv_nsec (mkts 3 2500000000) + -700 * 1000000).
Proof.
  apply (add_ms_adds_for_any_sign (mkts 3 2500000000) (-700));
    unfold in_range, min_signed, max_signed; cbn; lia.
Defined.

(** X2.  [add_ms] never borrows from the seconds: when [ms] is negative
    enough to make [tv_nsec + ms * 10^6] negative, the loop is not entered,
    [tv_sec] is untouched and [tv_nsec] is left negative. *)
Theorem add_ms_does_not_borrow t ms :
  in_range (ms * 1000000) ->
  in_range (tv_nsec t + ms * 1000000) ->
  tv_nsec t + ms * 1000000 < 0 ->
  add_ms t ms = mkts (tv_sec t) (tv_nsec t + ms * 1000000) /\
  ~ normalised (add_ms t ms).
Proof.
  intros Hp Hsum Hneg.
  assert (E : add_ms t ms = mkts (tv_sec t) (tv_nsec t + ms * 1000000)).
  { unfold add_ms.
    rewrite (wrap64_small (ms * 1000000)) by exact Hp.
    rewrite (wrap64_small (tv_nsec t + ms * 1000000)) by exact Hsum.
    apply carry_loop_below. cbn [tv_nsec]. lia. }
  split; [exact E |]. rewrite E. unfold normalised. cbn [tv_nsec]. lia.
Qed.

Lemma add_ms_does_not_borrow_witness :
  add_ms (mkts 5 20000000) (-50) = mkts 5 (20000000 + -50 * 1000000) /\
  ~ normalised (add_ms (mkts 5 20000000) (-50)).
Proof.
  apply (add_ms_does_not_borrow (mkts 5 20000000) (-50));
    unfold in_range, min_signed, max_signed; cbn; lia.
Defined.

(** X3.  Two successive advances are one advance by the sum: for a
    normalised timespec and non-negative amounts,
    [add_ms (add_ms t a) b = add_ms t (a + b)], as long as the total does
    not overflow. *)
Theorem add_ms_composes t a b :
  normalised t ->
  0 <= a -> 0 <= b ->
  in_range (tv_sec t) ->
  tv_nsec t + (a + b) * 1000000 <= max_signed ->
  tv_sec t + (tv_nsec t + (a + b) * 1000000) / 1000000000 <= max_signed ->
  add_ms (add_ms t a) b = add_ms t (a + b).
Proof.
  intros Hn Ha Hb Hs Hsum Hsec.
  assert (Hmax : max_signed = 2 ^ 63 - 1) by reflexivity.
  assert (Hmin : min_signed = - 2 ^ 63) by reflexivity.
  assert (Hn' := Hn). unfold normalised, NSEC_PER_SEC in Hn'.
  assert (Hsec_a : tv_sec t + (tv_nsec t + a * 1000000) / 1000000000
                   <= max_signed).
  { etransitivity; [| exact Hsec].
    apply Z.add_le_mono_l, Z.div_le_mono; lia. }
  rewrite (add_ms_closed t a) by (assumption || lia).
  rewrite (add_ms_closed t (a + b)) by (assumption || lia).
  set (q := (tv_nsec t + a * 1000000) / 1000000000).
  set (r := (tv_nsec t + a * 1000000) mod 1000000000).
  assert (Hqr : tv_nsec t + a * 1000000 = 1000000000 * q + r)
    by (apply Z.div_mod; lia).
  assert (Hr : 0 <= r < 1000000000) by (apply Z.mod_pos_bound; lia).
  assert (Hq : 0 <= q) by (apply Z.div_pos; lia).
  assert (Etot : tv_nsec t + (a + b) * 1000000
                 = r + b * 1000000 + q * 1000000000) by lia.
  assert (Ediv : (tv_nsec t + (a + b) * 1000000) / 1000000000
                 = (r + b * 1000000) / 1000000000 + q)
    by (rewrite Etot; apply Z.div_add; lia).
  assert (Emod : (tv_nsec t + (a + b) * 1000000) mod 1000000000
                 = (r + b * 1000000) mod 1000000000)
    by (rewrite Etot; apply Z.mod_add; lia).
  rewrite add_ms_closed; cbn [tv_sec tv_nsec].
  - rewrite Ediv, Emod. f_equal. lia.
  - unfold normalised, NSEC_PER_SEC. cbn [tv_nsec]. exact Hr.
  - exact Hb.
  - unfold in_range in *. lia.
  - lia.
  - rewrite Ediv in Hsec. lia.
Qed.

Lemma add_ms_composes_witness :
  add_ms (add_ms (mkts 9 990000000) 50) 1975 = add_ms (mkts 9 990000000) 2025.
Proof.
  apply (add_ms_composes (mkts 9 990000000) 50 1975);
    unfold normalised, in_range, min_signed, max_signed, NSEC_PER_SEC;
    cbn; lia.
Defined.

(** ** What the loop shows and touches *)

Section Echo.
Variable fl : Q -> Q.
Variable libm_sin : Q -> Q.

Lemma couts_app t1 t2 : couts (t1 ++ t2) = couts t1 ++ couts t2.
Proof.
  induction t1 as [| ev t1 IH]; [reflexivity |].
  destruct ev; cbn; rewrite ?IH; reflexivity.
Qed.

Lemma couts_ticks e (l : list nat) :
  couts (flat_map (tick_events fl libm_sin e) l)
  = map (fun i => ("Sent: " ++ transmitted (sample_at fl libm_sin e i))%string)
        l.
Proof.
  induction l as [| i l IH]; [reflexivity |].
  cbn [flat_map map]. rewrite couts_app, IH. reflexivity.
Qed.

Lemma couts_prologue_open e :
  open_result e <> -1 -> couts (trace (prologue e)) = [banner].
Proof.
  intros H. unfold prologue, enable_realtime.
  destruct (Z.eqb_spec (open_result e) (-1)); [contradiction |].
  destruct (sched_setscheduler_result e <? 0); reflexivity.
Qed.

(** X4.  The standard output mirrors the device: with the device open,
    after any number of iterations the texts sent to [std::cout] are the
    banner followed by ["Sent: "] and the very bytes of each [write], in
    the same order, one per iteration (whatever the samples are). *)
Theorem console_echoes_every_write (e : env) (n : nat) :
  open_result e <> -1 ->
  exists c,
    main fl libm_sin e (S n) = Some c /\
    couts (trace c)
      = banner :: map (String.append "Sent: ") (writes (trace c)) /\
    List.length (writes (trace c)) = n.
Proof.
  intros Hopen. eexists. split; [apply main_loop; exact Hopen |].
  cbn [trace]. unfold trace_after.
  rewrite couts_app, writes_app, couts_prologue_open by exact Hopen.
  rewrite writes_prologue, couts_ticks, writes_ticks. cbn [app].
  rewrite map_map, length_map, length_seq. split; reflexivity.
Qed.

Lemma in_trace_after e n ev :
  In ev (trace_after fl libm_sin e n) ->
  In ev (trace (prologue e)) \/
  exists i, In ev (tick_events fl libm_sin e i).
Proof.
  unfold trace_after. intros H. apply in_app_or in H.
  destruct H as [H | H]; [left; exact H | right].
  apply in_flat_map in H. destruct H as (i & _ & Hi). exists i. exact Hi.
Qed.

(** X5.  With the device open the program only ever acts on the
    descriptor [open] returned: every [tcgetattr], [tcsetattr], [write]
    and [tcdrain] of every reachable trace carries it; and it never closes
    the descriptor nor writes to the error stream. *)
Theorem only_the_opened_descriptor (e : env) (n : nat) (c : config) :
  open_result e <> -1 ->
  main fl libm_sin e n = Some c ->
  forall ev, In ev (trace c) ->
    (forall fd, fd_of ev = Some fd -> fd = open_result e) /\
    is_cerr_or_close ev = false.
Proof.
  intros Hopen Hrun ev Hin. destruct n as [| n].
  - cbn in Hrun. apply some_eq in Hrun. subst c. destruct Hin.
  - rewrite main_loop in Hrun by exact Hopen. apply some_eq in Hrun.
    subst c. cbn [trace] in Hin.
    apply in_trace_after in Hin. destruct Hin as [Hin | [i Hin]].
    + unfold prologue, enable_realtime in Hin.
      destruct (Z.eqb_spec (open_result e) (-1)); [contradiction |].
      cbn [trace] in Hin.
      destruct (sched_setscheduler_result e <? 0); cbn in Hin;
        repeat (destruct Hin as [<- | Hin]; [split;
          [intros fd Hfd; cbn in Hfd; congruence | reflexivity] |]);
        destruct Hin.
    + unfold tick_events in Hin. cbn in Hin.
      repeat (destruct Hin as [<- | Hin]; [split;
        [intros fd Hfd; cbn in Hfd; congruence | reflexivity] |]);
      destruct Hin.
Qed.

End Echo.

Lemma console_echoes_every_write_witness :
  exists c,
    main demo_fl demo_sin demo_env 4 = Some c /\
    couts (trace c)
      = banner :: map (String.append "Sent: ") (writes (trace c)) /\
    List.length (writes (trace c)) = 3%nat.
Proof.
  apply (console_echoes_every_write demo_fl demo_sin demo_env 3). cbn. lia.
Defined.

Lemma only_the_opened_descriptor_witness :
  (forall fd, fd_of (Tcdrain 3) = Some fd -> fd = open_result demo_env_no_rt)
  /\ is_cerr_or_close (Tcdrain 3) = false.
Proof.
  apply (only_the_opened_descriptor demo_fl demo_sin demo_env_no_rt 2
           (mkconfig (AtLoop (locals_after demo_env_no_rt 1))
                     (trace_after demo_fl demo_sin demo_env_no_rt 1))).
  - cbn. lia.
  - reflexivity.
  - vm_compute. tauto.
Defined.

(** ** The buffer, for any sample *)

Module BufferFacts.
Local Open Scope nat_scope.

Lemma length_prefix (n : nat) : forall s,
  String.length (substring 0 n s) = Nat.min n (String.length s).
Proof.
  induction n as [| n IH]; intros [| c s]; cbn; try reflexivity.
  rewrite IH. reflexivity.
Qed.

Lemma prefix_of_append (s t : string) :
  substring 0 (String.length s) (s ++ t) = s.
Proof.
  induction s as [| c s IH]; cbn.
  - destruct t; reflexivity.
  - rewrite IH. reflexivity.
Qed.

Lemma length_append (s t : string) :
  String.length (s ++ t) = String.length s + String.length t.
Proof. induction s as [| c s IH]; cbn; [| rewrite IH]; reflexivity. Qed.

Lemma no_nul_append (s t : string) :
  no_nul (s ++ t) = no_nul s && no_nul t.
Proof.
  induction s as [| c s IH]; cbn; [reflexivity |].
  rewrite IH, andb_assoc. reflexivity.
Qed.

Lemma no_nul_prefix (n : nat) : forall s,
  no_nul s = true -> no_nul (substring 0 n s) = true.
Proof.
  induction n as [| n IH]; intros [| c s] H; cbn in *; try reflexivity.
  apply andb_true_iff in H. destruct H as [Hc Hs].
  rewrite Hc, (IH s Hs). reflexivity.
Qed.

Lemma strlen_terminated (s t : string) :
  no_nul s = true -> strlen (s ++ String NUL t) = String.length s.
Proof.
  induction s as [| c s IH]; intros H; cbn in *; [reflexivity |].
  apply andb_true_iff in H. destruct H as [Hc Hs].
  apply negb_true_iff in Hc. rewrite Hc, (IH Hs). reflexivity.
Qed.

Lemma no_nul_uint_text (d : Decimal.uint) : no_nul (uint_text d) = true.
Proof. induction d; cbn [uint_text no_nul]; rewrite ?IHd; reflexivity. Qed.

Lemma no_nul_frac4 (k : Z) : no_nul (frac4 k) = true.
Proof.
  unfold frac4. cbn [no_nul].
  assert (Hd : forall z : Z, (0 <= z mod 10 <= 9)%Z)
    by (intros z; pose proof (Z.mod_pos_bound z 10 ltac:(lia)); lia).
  rewrite !FormatFacts.digit_not_nul by apply Hd.
  reflexivity.
Qed.

Lemma no_nul_format_line (y : Q) : no_nul (format_line y) = true.
Proof.
  unfold format_line, fixed4.
  rewrite !no_nul_append, no_nul_frac4. unfold int_text.
  rewrite no_nul_uint_text.
  destruct (Qlt_le_dec y 0); reflexivity.
Qed.

End BufferFacts.

(** X6.  Whatever the sample, line 82 never writes past the 32-byte
    buffer and line 84 sends the first 31 characters of the formatted
    line at most: the bytes handed to [write] are the line cut at 31
    characters, so a line of 32 characters or more loses its end. *)
Theorem write_sends_at_most_31_characters (y : Q) :
  (String.length (buffer_of y) <= BUFFER_SIZE)%nat /\
  transmitted y = substring 0 31 (format_line y) /\
  String.length (transmitted y)
  = Nat.min 31 (String.length (format_line y)).
Proof.
  assert (Hcut : no_nul (substring 0 31 (format_line y)) = true)
    by apply BufferFacts.no_nul_prefix, BufferFacts.no_nul_format_line.
  assert (Hsent : transmitted y = substring 0 31 (format_line y)).
  { unfold transmitted, buffer_of, snprintf, BUFFER_SIZE.
    change (32 - 1)%nat with 31%nat.
    rewrite BufferFacts.strlen_terminated by exact Hcut.
    apply BufferFacts.prefix_of_append. }
  split; [| split].
  - unfold buffer_of, snprintf, BUFFER_SIZE. change (32 - 1)%nat with 31%nat.
    rewrite BufferFacts.length_append, BufferFacts.length_prefix.
    cbn [String.length]. lia.
  - exact Hsent.
  - rewrite Hsent. apply BufferFacts.length_prefix.
Qed.

(** ** The sample as a [double] *)

Section RoundedSample.
Variable fl : Q -> Q.
Variable libm_sin : Q -> Q.
Hypothesis fl_monotone : forall x y : Q, (x <= y)%Q -> (fl x <= fl y)%Q.
Hypothesis fl_small_integers :
  forall z : Z, -8 <= z <= 8 -> (fl (inject_Z z) == inject_Z z)%Q.
Hypothesis sin_range : forall x : Q, (-1 <= libm_sin x <= 1)%Q.

(** X7.  Computed in rounded arithmetic, the sample is within [0, 8] for
    any two timespecs whatsoever, valid readings or not, wrapped
    differences included: the bound needs nothing of the clock.  (Rounding
    is assumed monotone and exact on the integers up to 8, and the library
    sine to stay within [-1, 1].) *)
Theorem rounded_sample_within_0_8 (start now : timespec) :
  (0 <= Double.sample (Double.Rounded fl libm_sin) start now <= 8)%Q.
Proof.
  unfold Double.sample.
  apply (rounded_sine_range fl libm_sin fl_monotone fl_small_integers
           sin_range).
Qed.

End RoundedSample.

Lemma rounded_sample_within_0_8_witness :
  (0 <= Double.sample (Double.Rounded demo_fl demo_sin)
          (mkts 7 999999999) (mkts (-3) 5)
     <= 8)%Q.
Proof.
  apply (rounded_sample_within_0_8 demo_fl demo_sin demo_fl_monotone
           demo_fl_small_integers demo_sin_range).
Defined.

(** ** What the serial configuration leaves alone *)

Ltac touched_words :=
  unfold IFLAG_TOUCHED, CFLAG_TOUCHED; flag_words.

(** X9.  Lines 45-48 change nothing but the bits they name: every bit of
    [c_iflag] outside the raw-mode input flags (and the internal zero-baud
    mark), every bit of [c_oflag] but [OPOST], every bit of [c_cflag]
    outside speed, size, parity enable, [CREAD] and [CLOCAL], every bit of
    [c_lflag] outside the raw-mode local flags, and every control
    character but [VMIN] and [VTIME] is what [tcgetattr] returned.  So
    stop bits, parity sense, hardware and [IXOFF] flow control are
    inherited, not set. *)
Theorem configuration_keeps_other_settings (t : termios) :
  Z.land (c_iflag (configure t)) (Z.lnot IFLAG_TOUCHED)
  = Z.land (c_iflag t) (Z.lnot IFLAG_TOUCHED) /\
  Z.land (c_oflag (configure t)) (Z.lnot OPOST)
  = Z.land (c_oflag t) (Z.lnot OPOST) /\
  Z.land (c_cflag (configure t)) (Z.lnot CFLAG_TOUCHED)
  = Z.land (c_cflag t) (Z.lnot CFLAG_TOUCHED) /\
  Z.land (c_lflag (configure t)) (Z.lnot RAW_LFLAG_OFF)
  = Z.land (c_lflag t) (Z.lnot RAW_LFLAG_OFF) /\
  forall j,
    c_cc (configure t) j
    = if j =? VTIME then 0 else if j =? VMIN then 1 else c_cc t j.
Proof.
  rewrite configure_fields. cbn [c_iflag c_oflag c_cflag c_lflag c_cc].
  generalize (c_iflag t) (c_oflag t) (c_cflag t) (c_lflag t).
  intros i o c l.
  split; [touched_words; flag_eq |].
  split; [touched_words; flag_eq |].
  split; [touched_words; flag_eq |].
  split; [touched_words; flag_eq |].
  intros j. reflexivity.
Qed.

(** X10.  Configuring twice is configuring once: applying lines 45-48 to
    their own result changes no flag word, no speed and no control
    character. *)
Theorem configuration_is_idempotent (t : termios) :
  c_iflag (configure (configure t)) = c_iflag (configure t) /\
  c_oflag (configure (configure t)) = c_oflag (configure t) /\
  c_cflag (configure (configure t)) = c_cflag (configure t) /\
  c_lflag (configure (configure t)) = c_lflag (configure t) /\
  c_ispeed (configure (configure t)) = c_ispeed (configure t) /\
  c_ospeed (configure (configure t)) = c_ospeed (configure t) /\
  forall j, c_cc (configure (configure t)) j = c_cc (configure t) j.
Proof.
  rewrite (configure_fields (configure t)), (configure_fields t).
  cbn [c_iflag c_oflag c_cflag c_lflag c_cc c_ispeed c_ospeed].
  generalize (c_iflag t) (c_oflag t) (c_cflag t) (c_lflag t).
  intros i o c l.
  split; [flag_words; flag_eq |].
  split; [flag_words; flag_eq |].
  split; [flag_words; flag_eq |].
  split; [flag_words; flag_eq |].
  split; [reflexivity |].
  split; [reflexivity |].
  intros j. unfold set_cc.
  destruct (j =? VTIME); [reflexivity |].
  destruct (j =? VMIN); reflexivity.
Qed.

(** ** Set-up happens once *)

Section Setup.
Variable fl : Q -> Q.
Variable libm_sin : Q -> Q.

Lemma setup_free_ticks e (l : list nat) :
  filter is_setup (flat_map (tick_events fl libm_sin e) l) = [].
Proof.
  induction l as [| i l IH]; [reflexivity |].
  cbn [flat_map]. rewrite filter_app, IH. reflexivity.
Qed.

(** X11.  The loop never sets anything up again: with the device open,
    however many iterations have run, the set-up calls of the whole trace
    are the priority request (with its [perror] if refused), one [open] of
    the port, one [tcgetattr] and one [tcsetattr] with the configured
    attributes, in this order. *)
Theorem setup_happens_once (e : env) (n : nat) :
  open_result e <> -1 ->
  exists c,
    main fl libm_sin e (S n) = Some c /\
    filter is_setup (trace c)
    = enable_realtime e
      ++ [Open port (Z.lor O_RDWR (Z.lor O_NOCTTY O_NDELAY));
          Tcgetattr (open_result e);
          Tcsetattr (open_result e) TCSANOW (configure (tcgetattr_result e))].
Proof.
  intros Hopen. eexists. split; [apply main_loop; exact Hopen |].
  cbn [trace]. unfold trace_after.
  rewrite filter_app, setup_free_ticks, app_nil_r.
  unfold prologue, enable_realtime.
  destruct (Z.eqb_spec (open_result e) (-1)); [contradiction |].
  cbn [trace].
  destruct (sched_setscheduler_result e <? 0); reflexivity.
Qed.

End Setup.

Lemma setup_happens_once_witness :
  exists c,
    main demo_fl demo_sin demo_env_no_rt 6 = Some c /\
    filter is_setup (trace c)
    = enable_realtime demo_env_no_rt
      ++ [Open port (Z.lor O_RDWR (Z.lor O_NOCTTY O_NDELAY));
          Tcgetattr (open_result demo_env_no_rt);
          Tcsetattr (open_result demo_env_no_rt) TCSANOW
            (configure (tcgetattr_result demo_env_no_rt))].
Proof.
  apply (setup_happens_once demo_fl demo_sin demo_env_no_rt 5). cbn. lia.
Defined.
